(** * The rate-limited invoker of the DeFindex fee-bump examples

    A shallow embedding of [withRateLimit]
    (defindex-sdk-deposit-withdraw-fee-bump/src/rate-limiter.ts) and the
    properties of its retry loop.

    Conventions of the embedding.
    - A JavaScript value the loop can catch is a [JsValue]; an object is
      the finite map of its own properties.
    - A [number] is an integer-valued double, an infinity or NaN.  The
      product of two integer-valued doubles is the exact product rounded
      to 53 significant bits (ties to even), infinite from 2^1024 on, so
      the arithmetic of line 26 is the one of IEEE doubles on the
      integers; fractional delays are outside the model.  [maxRetries]
      is a rational, so that the loop tests are those of the source on
      a bound that is not an integer too.
    - [fn] is a step function on the state of the outside world: one call
      settles with an [Outcome] and leaves a new world.  The timer acts on
      the world too, so the operation may depend on the time waited.
    - A run yields its result together with the trace of what it did:
      the calls of [fn], the progress messages and the waits, in order.

    Beside the retry loop the file covers three fragments of the example
    programs around it: the fee offered for the fee-bump transaction
    ([FeeBump]), the loop of the .NET example that waits for the deposit
    transaction ([Polling], run with fuel since it has no bound of its
    own), and the lines of the stack trace shown on an error
    ([StackTrace]).  Their definitions come first, their properties
    after those of the retry loop. *)

From Equations Require Import Equations.
From stdpp Require Import gmap strings list.
From Stdlib Require Import ZArith QArith Qround Lia.

Local Open Scope Z_scope.

(** An integer where a rational is expected is that integer. *)
Coercion inject_Z : Z >-> Q.

(** ** The fragment of JavaScript the loop relies on *)

Module Js.

(** An integer-valued double, an infinity by its sign, or NaN.  [Int 0]
    stands for both zeros, which nothing here tells apart. *)
Inductive number : Type :=
| Int (z : Z)
| Inf (positive : bool)
| NaN.

#[warnings="-register-all"]
Inductive JsValue : Type :=
| VUndefined
| VNull
| VBoolean (b : bool)
| VNumber (n : number)
| VString (s : string)
| VObject (props : gmap string JsValue).

(** [v?.k]: undefined on undefined and null; the own property of an
    object, undefined when it has none; undefined on the other
    primitives, whose wrappers define none of the keys read here. *)
Definition optChain (v : JsValue) (k : string) : JsValue :=
  match v with
  | VObject props => default VUndefined (props !! k)
  | _ => VUndefined
  end.

(** [v === lit] for a primitive literal [lit]: same type and same value;
    NaN equals nothing; an object is never equal to a primitive. *)
Definition strictEq (v lit : JsValue) : bool :=
  match v, lit with
  | VUndefined, VUndefined => true
  | VNull, VNull => true
  | VBoolean a, VBoolean b => Bool.eqb a b
  | VNumber (Int a), VNumber (Int b) => a =? b
  | VNumber (Inf a), VNumber (Inf b) => Bool.eqb a b
  | VString a, VString b => String.eqb a b
  | _, _ => false
  end.

(** ToBoolean: undefined, null, false, 0, NaN and the empty string are
    falsy; everything else, every object included, is truthy. *)
Definition truthy (v : JsValue) : bool :=
  match v with
  | VUndefined | VNull => false
  | VBoolean b => b
  | VNumber (Int z) => negb (z =? 0)
  | VNumber (Inf _) => true
  | VNumber NaN => false
  | VString s => negb (String.eqb s "")
  | VObject _ => true
  end.

(** [a || b] *)
Definition logicalOr (a b : JsValue) : JsValue :=
  if truthy a then a else b.

(** The host of the program: the world the operation and the timer act
    on, and the runtime's reading of a string and of an object (through
    its [valueOf] and [toString]) as a number. *)
Class Host : Type := {
  World : Type;
  setTimeout : number -> World -> World;
  StringToNumber : string -> number;
  ObjectToNumber : gmap string JsValue -> number
}.

(** ToNumber *)
Definition ToNumber `{Host} (v : JsValue) : number :=
  match v with
  | VUndefined => NaN
  | VNull => Int 0
  | VBoolean b => Int (if b then 1 else 0)
  | VNumber n => n
  | VString s => StringToNumber s
  | VObject props => ObjectToNumber props
  end.

(** The double nearest to the integer [z]: [z] itself while it has at
    most 53 significant bits, otherwise [z] rounded to 53 bits, ties to
    the even significand, and an infinity from 2^1024 on. *)
Definition round53 (z : Z) : number :=
  let a := Z.abs z in
  let shift := Z.log2 a - 52 in
  let r :=
    if shift <=? 0 then a
    else
      let q := Z.shiftr a shift in
      let rem := a - Z.shiftl q shift in
      let half := 2 ^ (shift - 1) in
      let q' :=
        if (half <? rem) || ((rem =? half) && Z.odd q) then q + 1 else q in
      Z.shiftl q' shift in
  if 2 ^ 1024 <=? r then Inf (0 <? z) else Int (Z.sgn z * r).

(** [a * b] on numbers: the exact product rounded to a double; zero
    times an infinity is NaN. *)
Definition mul (a b : number) : number :=
  match a, b with
  | NaN, _ | _, NaN => NaN
  | Int x, Int y => round53 (x * y)
  | Int x, Inf p | Inf p, Int x =>
      if x =? 0 then NaN else Inf (if 0 <? x then p else negb p)
  | Inf p, Inf q => Inf (Bool.eqb p q)
  end.

(** [Math.max(a, b)]: NaN as soon as one argument is. *)
Definition Math_max (a b : number) : number :=
  match a, b with
  | NaN, _ | _, NaN => NaN
  | Inf true, _ | _, Inf true => Inf true
  | Inf false, x | x, Inf false => x
  | Int x, Int y => Int (Z.max x y)
  end.

(** [Math.pow(2, e)] for an integer exponent [e >= 0], the only ones the
    attempt counter takes: exact up to 2^1023, infinite from 2^1024. *)
Definition Math_pow2 (e : Z) : number :=
  if e <=? 1023 then Int (2 ^ e) else Inf true.

End Js.

(** ** The fee of the fee-bump transaction (deposit and withdraw scripts) *)

Module FeeBump.
Import Js.

(** [const networkMultiplier = 10] *)
Definition networkMultiplier : Z := 10.

(** [innerTxFee + baseFee * operationCount], on the integers that
    [parseInt(transaction.fee)], [parseInt(BASE_FEE)] and
    [transaction.operations.length] give. *)
Definition minFeeBumpFee (innerTxFee baseFee operationCount : Z) : Z :=
  innerTxFee + baseFee * operationCount.

(** [Math.max(minFeeBumpFee, innerTxFee * networkMultiplier)] *)
Definition dynamicFee (innerTxFee baseFee operationCount : Z) : number :=
  Math_max (Int (minFeeBumpFee innerTxFee baseFee operationCount))
           (Int (innerTxFee * networkMultiplier)).

End FeeBump.

(** ** Waiting for the deposit transaction (the .NET example) *)

Module Polling.

(** What the loop reads of a [GetTransactionResponse]: the text of its
    [Status] and its [ResultValue], [None] for [null]. *)
Record GetTransactionResponse (V : Type) : Type := MkResponse {
  Status : string;
  ResultValue : option V
}.
Arguments MkResponse {V} Status ResultValue.
Arguments Status {V} g.
Arguments ResultValue {V} g.

(** The Soroban server and the clock, acting on the outside world: an
    awaited [GetTransaction] gives a response or throws. *)
Class Server : Type := {
  World : Type;
  Value : Type;
  Fault : Type;
  GetTransaction :
    string -> World -> (GetTransactionResponse Value + Fault) * World;
  TaskDelay : Z -> World -> World
}.

(** What leaves the loop as an exception: one it makes itself, or one
    the server call threw. *)
Inductive Thrown `{Server} : Type :=
| Exception (message : string)
| ServerFault (e : Fault).

(** How the [while (true)] ends: by [break] with the response checked
    last, or by an exception. *)
Inductive LoopEnd `{Server} : Type :=
| Broke (checkedTx : GetTransactionResponse Value)
| Threw (ex : Thrown).

(** What the loop does, in order.  The console colours are left out. *)
Inductive Step `{Server} : Type :=
| Asked (answer : GetTransactionResponse Value + Fault)
| WriteLine (text : string)
| Write (text : string)
| Delayed (ms : Z).

Definition newline : string := String (Ascii.ascii_of_nat 10) EmptyString.

Section CheckTransaction.
Context `{Server}.
Variable hash : string.

(** The [while (true)] loop, run for at most [fuel] iterations; [None]
    when it is still polling after them. *)
Fixpoint checkTransaction (fuel : nat) (w : World)
  : option (LoopEnd * list Step * World) :=
  match fuel with
  | O => None
  | S fuel' =>
      match GetTransaction hash w with
      | (inr e, w1) => Some (Threw (ServerFault e), [Asked (inr e)], w1)
      | (inl checkedTx, w1) =>
          if String.eqb (Status checkedTx) "FAILED"
             || String.eqb (Status checkedTx) "ERROR"
          then
            Some (Threw (Exception "Transaction failed."),
                  [Asked (inl checkedTx);
                   WriteLine (String.append newline
                                (String.append "Transaction status: "
                                               (Status checkedTx)));
                   WriteLine (String.append "Transaction hash: " hash)],
                  w1)
          else if String.eqb (Status checkedTx) "SUCCESS" then
            let printed :=
              [Asked (inl checkedTx);
               WriteLine (String.append newline
                            (String.append "Transaction Status: "
                                           (Status checkedTx)));
               WriteLine (String.append "Transaction hash: " hash)] in
            match ResultValue checkedTx with
            | None =>
                Some (Threw (Exception "Transaction result value is null."),
                      printed, w1)
            | Some _ => Some (Broke checkedTx, printed, w1)
            end
          else
            let timeout := 50 in
            match checkTransaction fuel' (TaskDelay timeout w1) with
            | Some (ending, steps, w2) =>
                Some (ending,
                      [Asked (inl checkedTx); Write "."; Delayed timeout]
                        ++ steps,
                      w2)
            | None => None
            end
      end
  end.

(** A status the loop keeps polling on: neither of the three it tests. *)
Definition pending (checkedTx : GetTransactionResponse Value) : bool :=
  negb (String.eqb (Status checkedTx) "FAILED")
  && negb (String.eqb (Status checkedTx) "ERROR")
  && negb (String.eqb (Status checkedTx) "SUCCESS").

(** The first [k] answers of the server from [w], when all of them are
    pending: the steps the loop takes on them and the world it reaches. *)
Fixpoint pendingPolls (k : nat) (w : World) : option (list Step * World) :=
  match k with
  | O => Some ([], w)
  | S k' =>
      match GetTransaction hash w with
      | (inl checkedTx, w1) =>
          if pending checkedTx then
            match pendingPolls k' (TaskDelay 50 w1) with
            | Some (steps, w2) =>
                Some ([Asked (inl checkedTx); Write "."; Delayed 50] ++ steps,
                      w2)
            | None => None
            end
          else None
      | (inr _, _) => None
      end
  end.

End CheckTransaction.

(** The delays among the steps, in order. *)
Fixpoint delays `{Server} (steps : list Step) : list Z :=
  match steps with
  | [] => []
  | Delayed ms :: steps' => ms :: delays steps'
  | _ :: steps' => delays steps'
  end.

(** A server that answers call number [n] with entry [n] of a script of
    status texts and result values, and with [rest] after it. *)
#[local] Instance scriptServer
    (script : list (string * option Z)) (rest : string * option Z)
  : Server := {|
  World := nat;
  Value := Z;
  Fault := string;
  GetTransaction := fun _ n =>
    (inl (MkResponse (default rest (script !! n)).1
                     (default rest (script !! n)).2), S n);
  TaskDelay := fun _ n => n
|}.

(** A transaction found on the third call, and one never found. *)
Definition foundOnThirdCall : Server :=
  scriptServer [("NOT_FOUND", None); ("NOT_FOUND", None)] ("SUCCESS", Some 7).

Definition neverFound : Server := scriptServer [] ("NOT_FOUND", None).

Definition failsOnSecondCall : Server :=
  scriptServer [("NOT_FOUND", None)] ("FAILED", None).

End Polling.

(** ** The stack trace shown on an error (report-and-lock-fees.mjs) *)

Module StackTrace.

(** [s.split(sep)] for a separator of one character: the pieces between
    its occurrences, one more than there are occurrences. *)
Fixpoint split (sep : Ascii.ascii) (s : string) : list string :=
  match s with
  | EmptyString => [EmptyString]
  | String c s' =>
      if Ascii.eqb c sep then EmptyString :: split sep s'
      else match split sep s' with
           | piece :: pieces => String c piece :: pieces
           | [] => [String c EmptyString]
           end
  end.

(** [pieces.join(sep)] *)
Fixpoint join (sep : string) (pieces : list string) : string :=
  match pieces with
  | [] => EmptyString
  | [piece] => piece
  | piece :: rest => String.append piece (String.append sep (join sep rest))
  end.

Definition lineFeed : Ascii.ascii := Ascii.ascii_of_nat 10.

(** The character [c] occurs in [s]. *)
Fixpoint occurs (c : Ascii.ascii) (s : string) : bool :=
  match s with
  | EmptyString => false
  | String c' s' => Ascii.eqb c' c || occurs c s'
  end.

(** [error.stack.split('\n').slice(0, 5).join('\n')] *)
Definition stackHead (stack : string) : string :=
  join (String lineFeed EmptyString) (take 5 (split lineFeed stack)).

End StackTrace.

(** ** The retry loop *)

Module RateLimiter.
Import Js.

(** How a call of an async function settles. *)
Inductive Outcome (T : Type) : Type :=
| Returns (v : T)
| Throws (e : JsValue).
Arguments Returns {T} v.
Arguments Throws {T} e.

(** What a run does, in order: [fn()] settling with [o]; the progress
    message with its three interpolated values; the timer. *)
Inductive Event (T : Type) : Type :=
| Call (o : Outcome T)
| Log (delayMs : number) (retry : Z) (maxRetries : Q)
| Sleep (delayMs : number).
Arguments Call {T} o.
Arguments Log {T} delayMs retry maxRetries.
Arguments Sleep {T} delayMs.

(** How the [for] statement completes: by the [return] of line 19, by
    the [throw] of line 36, or normally, with [lastError] as it stands
    when control reaches line 40. *)
Inductive LoopExit (T : Type) : Type :=
| ExitReturn (v : T)
| ExitThrow (e : JsValue)
| ExitNormal (lastError : JsValue).
Arguments ExitReturn {T} v.
Arguments ExitThrow {T} e.
Arguments ExitNormal {T} lastError.

Record Run (T W R : Type) : Type := MkRun {
  result : R;
  trace : list (Event T);
  world : W
}.
Arguments MkRun {T W R} result trace world.
Arguments result {T W R} r.
Arguments trace {T W R} r.
Arguments world {T W R} r.

(** [emit evs r]: the events [evs] happen, then the run [r]. *)
Definition emit {T W R} (evs : list (Event T)) (r : Run T W R) : Run T W R :=
  MkRun (result r) (evs ++ trace r) (world r).

Definition defaultMaxRetries : Z := 5.
Definition defaultInitialDelay : Z := 1000.

(** Line 24: [error?.statusCode === 429 || error?.error === 'Too Many Requests'] *)
Definition isRateLimit (error : JsValue) : bool :=
  strictEq (optChain error "statusCode") (VNumber (Int 429))
  || strictEq (optChain error "error") (VString "Too Many Requests").

(** Line 25: [error?.retryAfter || 1] *)
Definition retryAfter (error : JsValue) : JsValue :=
  logicalOr (optChain error "retryAfter") (VNumber (Int 1)).

(** Line 26: [Math.max(retryAfter * 1000, initialDelay * Math.pow(2, attempt))] *)
Definition delayMs `{Host} (error : JsValue) (initialDelay attempt : Z) : number :=
  Math_max (mul (ToNumber (retryAfter error)) (Int 1000))
           (mul (Int initialDelay) (Math_pow2 attempt)).

Section WithRateLimit.
Context {T : Type} `{Host}.
Variable fn : World -> Outcome T * World.
Variable maxRetries : Q.
Variable initialDelay : Z.

(** Lines 17-38, from the loop test with the counter at [attempt].
    The measure is the number of iterations the test still allows. *)
Equations? forLoop (attempt : Z) (lastError : JsValue) (w : World)
  : Run T World (LoopExit T)
  by wf (Z.to_nat (Qfloor maxRetries + 1 - attempt)) lt :=
forLoop attempt lastError w with Qlt_le_dec maxRetries attempt := {
  | left _ => MkRun (ExitNormal lastError) [] w
  | right _ =>
      match fn w with
      | (Returns v, w1) => MkRun (ExitReturn v) [Call (Returns v)] w1
      | (Throws error, w1) =>
          let lastError := error in
          if isRateLimit error then
            let delayMs := delayMs error initialDelay attempt in
            if Qlt_le_dec attempt maxRetries then
              emit [Call (Throws error);
                    Log delayMs (attempt + 1) maxRetries;
                    Sleep delayMs]
                   (forLoop (attempt + 1) lastError (setTimeout delayMs w1))
            else MkRun (ExitThrow error) [Call (Throws error)] w1
          else MkRun (ExitThrow error) [Call (Throws error)] w1
      end }.
Proof.
  assert (attempt <= Qfloor maxRetries).
  { rewrite <- (Qfloor_Z attempt). apply Qfloor_resp_le. assumption. }
  lia.
Qed.

(** The whole function: the loop from [attempt = 0] with [lastError]
    not yet assigned, then the [throw lastError] of line 40. *)
Definition withRateLimit (w : World) : Run T World (Outcome T) :=
  let r := forLoop 0 VUndefined w in
  let settled :=
    match result r with
    | ExitReturn v => Returns v
    | ExitThrow error => Throws error
    | ExitNormal lastError => Throws lastError
    end in
  MkRun settled (trace r) (world r).

End WithRateLimit.

(** ** Reading a trace *)

(** The outcomes of the calls of [fn], in order. *)
Fixpoint calls {T} (tr : list (Event T)) : list (Outcome T) :=
  match tr with
  | [] => []
  | Call o :: tr' => o :: calls tr'
  | _ :: tr' => calls tr'
  end.

(** The failures [fn] threw, in order: entry [i] is the failure of
    attempt [i] as long as the attempts fail. *)
Fixpoint failures {T} (tr : list (Event T)) : list JsValue :=
  match tr with
  | [] => []
  | Call (Throws e) :: tr' => e :: failures tr'
  | _ :: tr' => failures tr'
  end.

(** The waits, in order. *)
Fixpoint sleeps {T} (tr : list (Event T)) : list number :=
  match tr with
  | [] => []
  | Sleep d :: tr' => d :: sleeps tr'
  | _ :: tr' => sleeps tr'
  end.

(** The progress messages, in order: the delay announced, the number
    of the retry and the number of retries allowed. *)
Fixpoint logs {T} (tr : list (Event T)) : list (number * Z * Q) :=
  match tr with
  | [] => []
  | Log d retry total :: tr' => (d, retry, total) :: logs tr'
  | _ :: tr' => logs tr'
  end.

(** The milliseconds of a list of waits added up; [None] when one of
    them is infinite or NaN. *)
Fixpoint waited (ds : list number) : option Z :=
  match ds with
  | [] => Some 0
  | Int ms :: ds' => Z.add ms <$> waited ds'
  | Inf _ :: _ | NaN :: _ => None
  end.

(** ** Vocabulary of the properties *)

(** The failure carries the [retryAfter] field [r]; [None] when it
    carries none. *)
Definition carriesRetryAfter (error : JsValue) (r : option Z) : Prop :=
  match r with
  | Some z => optChain error "retryAfter" = VNumber (Int z)
  | None => optChain error "retryAfter" = VUndefined
  end.

(** The delay in the words of the specification, which reads the field
    as [failure.retryAfter ?? 1]: [r] when present, otherwise 1. *)
Definition specDelay (r : option Z) (initialDelay i : Z) : Z :=
  Z.max (default 1 r * 1000) (initialDelay * 2 ^ i).

(** An integer whose double is the integer itself, being of at most 53
    bits: what a product has to be for the multiplication of doubles to
    be the one of integers. *)
Definition exact53 (z : Z) : Prop := Z.abs z <= 2 ^ 53.

(** The wait [d] lasts at least [ms] milliseconds. *)
Definition atLeast (ms : Z) (d : number) : Prop :=
  match d with
  | Int z => ms <= z
  | Inf positive => positive = true
  | NaN => False
  end.

(** The seconds the code multiplies by 1000: [r || 1] takes 1 for an
    absent field and for 0 alike. *)
Definition secondsOr1 (r : option Z) : Z :=
  match r with
  | Some z => if z =? 0 then 1 else z
  | None => 1
  end.

(** The trace [tr] is what happens between the worlds [w] and [w']: each
    call settles as [fn] does in the world reached, each wait acts on
    the world through the timer, and nothing else touches it. *)
Fixpoint played {T} `{Host} (fn : World -> Outcome T * World)
    (w : World) (tr : list (Event T)) (w' : World) : Prop :=
  match tr with
  | [] => w' = w
  | Call o :: tr' => (fn w).1 = o /\ played fn (fn w).2 tr' w'
  | Log _ _ _ :: tr' => played fn w tr' w'
  | Sleep d :: tr' => played fn (setTimeout d w) tr' w'
  end.

(** The call threw a rate-limit failure. *)
Definition rateLimited {T} (o : Outcome T) : Prop :=
  exists e, o = Throws e /\ isRateLimit e = true.

(** The three ways a run can end. *)
Definition endsInSuccess {T W} (r : Run T W (Outcome T)) : Prop :=
  exists v, result r = Returns v /\ last (trace r) = Some (Call (Returns v)).

Definition endsInFatal {T W} (r : Run T W (Outcome T)) : Prop :=
  exists e, result r = Throws e /\ isRateLimit e = false
            /\ last (trace r) = Some (Call (Throws e)).

Definition endsInExhaustion {T W} (maxRetries : Z) (r : Run T W (Outcome T)) : Prop :=
  exists e, result r = Throws e /\ isRateLimit e = true
            /\ last (trace r) = Some (Call (Throws e))
            /\ Z.of_nat (length (calls (trace r))) = maxRetries + 1.

Definition exactlyOne (A B C : Prop) : Prop :=
  (A /\ ~ B /\ ~ C) \/ (~ A /\ B /\ ~ C) \/ (~ A /\ ~ B /\ C).

(** ** Concrete hosts, failures and operations *)

(** A host whose world is the number of calls made so far; waiting
    leaves it alone.  None of the failures below holds a string where a
    number is read, so the reading of strings is immaterial; the one
    object read as a number is a plain one, which reads as NaN. *)
#[local] Instance scriptHost : Host := {|
  World := nat;
  setTimeout := fun _ w => w;
  StringToNumber := fun _ => NaN;
  ObjectToNumber := fun _ => NaN
|}.

(** The operation whose call number [n] settles as entry [n] of
    [script], and as [rest] once the script is over. *)
Definition scripted {T} (script : list (Outcome T)) (rest : Outcome T)
  : nat -> Outcome T * nat :=
  fun n => (default rest (script !! n), S n).

Definition tooManyRequests : JsValue :=
  VObject {[ "statusCode" := VNumber (Int 429) ]}.

Definition badRequest : JsValue :=
  VObject {[ "statusCode" := VNumber (Int 400); "error" := VString "Bad Request" ]}.

Definition retryAfterZero : JsValue :=
  VObject {[ "statusCode" := VNumber (Int 429); "retryAfter" := VNumber (Int 0) ]}.

Definition retryAfterFive : JsValue :=
  VObject {[ "statusCode" := VNumber (Int 429); "retryAfter" := VNumber (Int 5) ]}.

(** A failure whose [retryAfter] is the largest odd integer a double
    holds, 2^53 - 1. *)
Definition retryAfterHuge : JsValue :=
  VObject {[ "statusCode" := VNumber (Int 429);
             "retryAfter" := VNumber (Int 9007199254740991) ]}.

(** A failure whose [retryAfter] is an object, as a parsed body may
    hold. *)
Definition retryAfterObject : JsValue :=
  VObject {[ "statusCode" := VNumber (Int 429);
             "retryAfter" := VObject {[ "seconds" := VNumber (Int 5) ]} ]}.

(** ** The classifier and the delay *)

Lemma strictEq_number v z :
  strictEq v (VNumber (Int z)) = true <-> v = VNumber (Int z).
Proof.
  destruct v as [| | b | [z' | p |] | s | props]; simpl;
    try (split; [discriminate | congruence]).
  rewrite Z.eqb_eq. split; congruence.
Qed.

Lemma strictEq_string v s :
  strictEq v (VString s) = true <-> v = VString s.
Proof.
  destruct v as [| | b | [z' | p |] | s' | props]; simpl;
    try (split; [discriminate | congruence]).
  rewrite String.eqb_eq. split; congruence.
Qed.

Lemma isRateLimit_spec error :
  isRateLimit error = true <->
  optChain error "statusCode" = VNumber (Int 429)
  \/ optChain error "error" = VString "Too Many Requests".
Proof.
  unfold isRateLimit.
  rewrite orb_true_iff, strictEq_number, strictEq_string. reflexivity.
Qed.

Lemma optChain_own_property error k v :
  v <> VUndefined ->
  optChain error k = v <-> exists props, error = VObject props /\ props !! k = Some v.
Proof.
  intros Hv. split.
  - destruct error as [| | | | | props]; simpl; try congruence.
    destruct (props !! k) as [v' |] eqn:Hk; simpl; [| congruence].
    intros ->. eauto.
  - intros (props & -> & Hk). simpl. rewrite Hk. reflexivity.
Qed.

(** An integer of at most 53 bits is its own double. *)
Lemma round53_exact z : exact53 z -> round53 z = Int z.
Proof.
  unfold exact53. change (2 ^ 53) with 9007199254740992. intros Hz.
  destruct (Z.eq_dec (Z.abs z) 9007199254740992) as [Htop | Hbelow].
  - assert (Hcases : z = 9007199254740992 \/ z = - 9007199254740992) by lia.
    destruct Hcases as [-> | ->]; vm_compute; reflexivity.
  - unfold round53. cbv zeta.
    assert (Hlog : Z.log2 (Z.abs z) - 52 <= 0).
    { destruct (Z.eq_dec (Z.abs z) 0) as [-> | Hnz]; [simpl; lia |].
      assert (Z.log2 (Z.abs z) < 53); [| lia].
      apply Z.log2_lt_pow2; [lia |].
      change (2 ^ 53) with 9007199254740992. lia. }
    apply Z.leb_le in Hlog. rewrite Hlog.
    assert (Hfin : (2 ^ 1024 <=? Z.abs z) = false).
    { apply Z.leb_gt. apply Z.lt_le_trans with (m := 2 ^ 53).
      - change (2 ^ 53) with 9007199254740992. lia.
      - apply Z.pow_le_mono_r; lia. }
    rewrite Hfin. f_equal. lia.
Qed.

(** The server term of line 26 on a failure whose [retryAfter] is
    absent or an integer, while the seconds times 1000 are exact. *)
Lemma serverDelay_carries `{Host} error r :
  carriesRetryAfter error r ->
  exact53 (secondsOr1 r * 1000) ->
  mul (ToNumber (retryAfter error)) (Int 1000) = Int (secondsOr1 r * 1000).
Proof.
  unfold carriesRetryAfter, retryAfter, logicalOr.
  destruct r as [z |]; intros -> Hexact; simpl truthy.
  - simpl secondsOr1 in *. destruct (z =? 0); simpl; apply round53_exact, Hexact.
  - simpl. apply round53_exact, Hexact.
Qed.

(** The exponential term of line 26 while it is exact. *)
Lemma backoff_exact initialDelay attempt :
  0 <= attempt <= 1023 ->
  exact53 (initialDelay * 2 ^ attempt) ->
  mul (Int initialDelay) (Math_pow2 attempt) = Int (initialDelay * 2 ^ attempt).
Proof.
  intros [_ Hmax] Hexact. unfold Math_pow2.
  apply Z.leb_le in Hmax. rewrite Hmax. simpl. apply round53_exact, Hexact.
Qed.

(** A rounded integer is an integer or an infinity, never NaN. *)
Lemma round53_cases z :
  (exists y, round53 z = Int y) \/ (exists p, round53 z = Inf p).
Proof.
  unfold round53. cbv zeta.
  match goal with |- context [if 2 ^ 1024 <=? ?r then _ else _] =>
    destruct (2 ^ 1024 <=? r) end; eauto.
Qed.

(** The exponential term of line 26 is NaN only as zero times infinity. *)
Lemma backoff_cases initialDelay attempt :
  attempt <= 1023 \/ initialDelay <> 0 ->
  (exists y, mul (Int initialDelay) (Math_pow2 attempt) = Int y)
  \/ (exists p, mul (Int initialDelay) (Math_pow2 attempt) = Inf p).
Proof.
  intros Hwhy. unfold Math_pow2.
  destruct (Z.leb_spec attempt 1023) as [Hle | Hgt]; simpl.
  - apply round53_cases.
  - destruct Hwhy as [Hle | Hnz]; [lia |].
    apply Z.eqb_neq in Hnz. rewrite Hnz. eauto.
Qed.

(** The larger of an integer and anything but NaN is at least the
    integer. *)
Lemma Math_max_atLeast s x :
  (exists y, x = Int y) \/ (exists p, x = Inf p) ->
  atLeast s (Math_max (Int s) x).
Proof.
  intros [[y ->] | [[|] ->]]; simpl; [lia | reflexivity | lia].
Qed.

(** Line 26 on a failure whose [retryAfter] is absent or an integer,
    while both terms are exact. *)
Lemma delayMs_carries `{Host} error r initialDelay attempt :
  carriesRetryAfter error r ->
  exact53 (secondsOr1 r * 1000) ->
  0 <= attempt <= 1023 ->
  exact53 (initialDelay * 2 ^ attempt) ->
  delayMs error initialDelay attempt =
    Int (Z.max (secondsOr1 r * 1000) (initialDelay * 2 ^ attempt)).
Proof.
  intros Hr Hs Ha Hb. unfold delayMs.
  rewrite (serverDelay_carries error r Hr Hs), (backoff_exact _ _ Ha Hb).
  reflexivity.
Qed.

(** A trace that ends with a failing call has that failure as the last
    of its failures. *)
Lemma failures_last {T} (tr : list (Event T)) e :
  last tr = Some (Call (Throws e)) -> last (failures tr) = Some e.
Proof.
  induction tr as [| ev tr IH]; [discriminate |].
  destruct tr as [| ev' tr].
  - intros [= ->]. reflexivity.
  - intros Hl. specialize (IH Hl).
    change (failures (ev :: ev' :: tr))
      with (match ev with
            | Call (Throws e0) => e0 :: failures (ev' :: tr)
            | _ => failures (ev' :: tr)
            end).
    destruct ev as [[v | e0] | |]; try exact IH.
    rewrite last_cons, IH. reflexivity.
Qed.

(** ** The loop, one iteration at a time *)

Section Steps.
Context {T : Type} `{Host}.
Variable fn : World -> Outcome T * World.
Variable maxRetries : Q.
Variable initialDelay : Z.

Local Abbreviation loop := (forLoop fn maxRetries initialDelay).

Lemma forLoop_stops (attempt : Z) lastError w :
  (maxRetries < attempt)%Q ->
  loop attempt lastError w = MkRun (ExitNormal lastError) [] w.
Proof.
  intros Hgt. rewrite forLoop_equation_1. unfold forLoop_unfold_clause_1.
  destruct (Qlt_le_dec maxRetries attempt) as [_ | Hle]; [reflexivity |].
  destruct (Qlt_not_le _ _ Hgt Hle).
Qed.

Lemma forLoop_returns (attempt : Z) lastError w v w1 :
  (attempt <= maxRetries)%Q ->
  fn w = (Returns v, w1) ->
  loop attempt lastError w = MkRun (ExitReturn v) [Call (Returns v)] w1.
Proof.
  intros Hle Hfn. rewrite forLoop_equation_1. unfold forLoop_unfold_clause_1.
  destruct (Qlt_le_dec maxRetries attempt) as [Hgt | _];
    [destruct (Qlt_not_le _ _ Hgt Hle) |].
  rewrite Hfn. reflexivity.
Qed.

Lemma forLoop_throws (attempt : Z) lastError w e w1 :
  (attempt <= maxRetries)%Q ->
  fn w = (Throws e, w1) ->
  isRateLimit e = false \/ (maxRetries <= attempt)%Q ->
  loop attempt lastError w = MkRun (ExitThrow e) [Call (Throws e)] w1.
Proof.
  intros Hle Hfn Hwhy. rewrite forLoop_equation_1. unfold forLoop_unfold_clause_1.
  destruct (Qlt_le_dec maxRetries attempt) as [Hgt | _];
    [destruct (Qlt_not_le _ _ Hgt Hle) |].
  rewrite Hfn. cbv zeta.
  destruct (isRateLimit e); [| reflexivity].
  destruct Hwhy as [Hno | Hlast]; [discriminate |].
  destruct (Qlt_le_dec attempt maxRetries) as [Hlt | _]; [| reflexivity].
  destruct (Qlt_not_le _ _ Hlt Hlast).
Qed.

Lemma forLoop_retries (attempt : Z) lastError w e w1 :
  (attempt < maxRetries)%Q ->
  fn w = (Throws e, w1) ->
  isRateLimit e = true ->
  loop attempt lastError w =
    emit [Call (Throws e);
          Log (delayMs e initialDelay attempt) (attempt + 1) maxRetries;
          Sleep (delayMs e initialDelay attempt)]
         (loop (attempt + 1) e
            (setTimeout (delayMs e initialDelay attempt) w1)).
Proof.
  intros Hlt Hfn Hrl. rewrite forLoop_equation_1. unfold forLoop_unfold_clause_1.
  destruct (Qlt_le_dec maxRetries attempt) as [Hgt | _];
    [destruct (Qlt_not_le _ _ Hgt (Qlt_le_weak _ _ Hlt)) |].
  rewrite Hfn. cbv zeta. rewrite Hrl.
  destruct (Qlt_le_dec attempt maxRetries) as [_ | Hge]; [reflexivity |].
  destruct (Qlt_not_le _ _ Hlt Hge).
Qed.




End Steps.

Section Properties.
Context {T : Type} `{Host}.
Variable fn : World -> Outcome T * World.
Variable maxRetries : Z.
Variable initialDelay : Z.

Local Abbreviation loop := (forLoop fn maxRetries initialDelay).
Local Abbreviation run := (withRateLimit fn maxRetries initialDelay).

Lemma forLoop_done attempt lastError w :
  maxRetries < attempt ->
  loop attempt lastError w = MkRun (ExitNormal lastError) [] w.
Proof. intros Hgt. apply forLoop_stops. now rewrite <- Zlt_Qlt. Qed.

Lemma forLoop_return attempt lastError w v w1 :
  attempt <= maxRetries ->
  fn w = (Returns v, w1) ->
  loop attempt lastError w = MkRun (ExitReturn v) [Call (Returns v)] w1.
Proof. intros Hle Hfn. apply forLoop_returns; [now rewrite <- Zle_Qle | exact Hfn]. Qed.

Lemma forLoop_throw attempt lastError w e w1 :
  attempt <= maxRetries ->
  fn w = (Throws e, w1) ->
  isRateLimit e = false \/ attempt = maxRetries ->
  loop attempt lastError w = MkRun (ExitThrow e) [Call (Throws e)] w1.
Proof.
  intros Hle Hfn Hwhy. apply forLoop_throws; [now rewrite <- Zle_Qle | exact Hfn |].
  destruct Hwhy as [Hno | ->]; [left; exact Hno | right; apply Qle_refl].
Qed.

Lemma forLoop_retry attempt lastError w e w1 :
  attempt < maxRetries ->
  fn w = (Throws e, w1) ->
  isRateLimit e = true ->
  loop attempt lastError w =
    emit [Call (Throws e);
          Log (delayMs e initialDelay attempt) (attempt + 1) maxRetries;
          Sleep (delayMs e initialDelay attempt)]
         (loop (attempt + 1) e
            (setTimeout (delayMs e initialDelay attempt) w1)).
Proof.
  intros Hlt Hfn Hrl. apply forLoop_retries; [now rewrite <- Zlt_Qlt | exact Hfn | exact Hrl].
Qed.

(** Induction along the iterations of the loop: the four ways an
    iteration can go. *)
Lemma forLoop_cases
    (P : Z -> World -> Run T World (LoopExit T) -> Prop) :
  (forall a le w, maxRetries < a -> P a w (MkRun (ExitNormal le) [] w)) ->
  (forall a w v w1,
      a <= maxRetries -> fn w = (Returns v, w1) ->
      P a w (MkRun (ExitReturn v) [Call (Returns v)] w1)) ->
  (forall a w e w1,
      a <= maxRetries -> fn w = (Throws e, w1) ->
      isRateLimit e = false \/ a = maxRetries ->
      P a w (MkRun (ExitThrow e) [Call (Throws e)] w1)) ->
  (forall a w e w1 r,
      a < maxRetries -> fn w = (Throws e, w1) -> isRateLimit e = true ->
      r = loop (a + 1) e (setTimeout (delayMs e initialDelay a) w1) ->
      P (a + 1) (setTimeout (delayMs e initialDelay a) w1) r ->
      P a w (emit [Call (Throws e);
                   Log (delayMs e initialDelay a) (a + 1) maxRetries;
                   Sleep (delayMs e initialDelay a)] r)) ->
  forall a le w, P a w (loop a le w).
Proof.
  intros Hdone Hret Hthrow Hretry a.
  remember (Z.to_nat (maxRetries + 1 - a)) as n eqn:Hn.
  revert a Hn. induction n as [| n IH]; intros a Hn le w.
  - rewrite forLoop_done by lia. apply Hdone. lia.
  - assert (Hle : a <= maxRetries) by lia.
    destruct (fn w) as [[v | e] w1] eqn:Hfn.
    + rewrite (forLoop_return _ _ _ _ _ Hle Hfn). now apply Hret.
    + destruct (isRateLimit e) eqn:Hrl.
      * destruct (Z.eq_dec a maxRetries) as [Heq | Hne].
        -- rewrite (forLoop_throw _ _ _ _ _ Hle Hfn) by auto.
           apply Hthrow; auto.
        -- rewrite (forLoop_retry a le w e w1) by (auto; lia).
           apply (Hretry a w e w1); auto; [lia |]. apply IH. lia.
      * rewrite (forLoop_throw _ _ _ _ _ Hle Hfn) by auto.
        apply Hthrow; auto.
Qed.

Lemma withRateLimit_trace w :
  trace (run w) = trace (loop 0 VUndefined w).
Proof. reflexivity. Qed.

(** *** Invariants of the loop *)

(** The loop completes normally only when its test fails at once. *)
Lemma forLoop_normal a le w le' :
  result (loop a le w) = ExitNormal le' ->
  maxRetries < a /\ trace (loop a le w) = [].
Proof.
  revert le'. pattern a, w, (loop a le w). apply forLoop_cases; clear a le w.
  - intros a le w Hgt le' _. auto.
  - intros a w v w1 _ _ le' Hres. discriminate Hres.
  - intros a w e w1 _ _ _ le' Hres. discriminate Hres.
  - intros a w e w1 r Hlt _ _ _ IH le' Hres. simpl in Hres.
    destruct (IH le' Hres) as [Hgt _]. lia.
Qed.

(** Any other completion comes straight after the call that caused it. *)
Lemma forLoop_last a le w :
  match result (loop a le w) with
  | ExitReturn v => last (trace (loop a le w)) = Some (Call (Returns v))
  | ExitThrow e => last (trace (loop a le w)) = Some (Call (Throws e))
  | ExitNormal _ => True
  end.
Proof.
  pattern a, w, (loop a le w). apply forLoop_cases; clear a le w; simpl; auto.
  intros a w e w1 r _ _ _ _ IH.
  destruct (result r); auto; destruct (trace r) as [| ev tl]; done.
Qed.

(** At most one call per iteration left, and all of them when the loop
    ends on a rate-limit failure. *)
Lemma forLoop_calls a le w :
  a <= maxRetries + 1 ->
  Z.of_nat (length (calls (trace (loop a le w)))) <= maxRetries + 1 - a
  /\ (forall e, result (loop a le w) = ExitThrow e -> isRateLimit e = true ->
                Z.of_nat (length (calls (trace (loop a le w)))) = maxRetries + 1 - a).
Proof.
  pattern a, w, (loop a le w). apply forLoop_cases; clear a le w; simpl.
  - intros a le w Hgt Hle. split; [lia | discriminate].
  - intros a w v w1 Hle _ _. split; [lia | discriminate].
  - intros a w e w1 Hle _ Hwhy _. split; [lia |].
    intros e' [= <-] Hrl. destruct Hwhy as [Hno | ->]; [congruence | lia].
  - intros a w e w1 r Hlt _ _ _ IH _.
    destruct IH as [IHle IHeq]; [lia |]. split; [lia |].
    intros e' Hres Hrl. specialize (IHeq e' Hres Hrl). lia.
Qed.

(** An iteration the test lets through starts with a call. *)
Lemma forLoop_starts_with_call a le w :
  a <= maxRetries ->
  exists o tl, trace (loop a le w) = Call o :: tl.
Proof.
  pattern a, w, (loop a le w). apply forLoop_cases; clear a le w; simpl;
    intros; try lia; eauto.
Qed.

(** Every wait comes right after a rate-limit failure and its message. *)
Lemma forLoop_sleep_after_rate_limit a le w pre d post :
  trace (loop a le w) = pre ++ Sleep d :: post ->
  exists pre' e retry,
    pre = pre' ++ [Call (Throws e); Log d retry maxRetries]
    /\ isRateLimit e = true.
Proof.
  revert pre. pattern a, w, (loop a le w).
  apply forLoop_cases; clear a le w.
  - intros a le w _ [| ? ?] Htr; simplify_eq/=.
  - intros a w v w1 _ _ [| ? [| ? ?]] Htr; simplify_eq/=.
  - intros a w e w1 _ _ _ [| ? [| ? ?]] Htr; simplify_eq/=.
  - intros a w e w1 r _ _ Hrl _ IH [| x [| y [| z pre]]] Htr; simplify_eq/=.
    + exists [], e, (a + 1). auto.
    + match goal with Htr : trace _ = _ |- _ =>
        destruct (IH pre Htr) as (pre' & e' & retry & -> & Hrl') end.
      exists (Call (Throws e) :: Log (delayMs e initialDelay a) (a + 1) maxRetries
                :: Sleep (delayMs e initialDelay a) :: pre'), e', retry.
      auto.
Qed.

(** A failure of [fn] either ends the run and is what the loop throws,
    or is a rate-limit failure answered by a message, a wait and a
    further call. *)
Lemma forLoop_failure_fate a le w pre e post :
  trace (loop a le w) = pre ++ Call (Throws e) :: post ->
  (post = [] /\ result (loop a le w) = ExitThrow e)
  \/ (isRateLimit e = true
      /\ exists d retry o post',
           post = Log d retry maxRetries :: Sleep d :: Call o :: post').
Proof.
  revert pre. pattern a, w, (loop a le w).
  apply forLoop_cases; clear a le w.
  - intros a le w _ [| ? ?] Htr; simplify_eq/=.
  - intros a w v w1 _ _ [| ? [| ? ?]] Htr; simplify_eq/=.
  - intros a w e' w1 _ _ _ [| ? [| ? ?]] Htr; simplify_eq/=. auto.
  - intros a w e' w1 r Hlt _ Hrl Hr IH [| x [| y [| z pre]]] Htr; simplify_eq/=.
    + right. split; [done |].
      destruct (forLoop_starts_with_call (a + 1) e
                  (setTimeout (delayMs e initialDelay a) w1))
        as (o & tl & ->); [lia |]. eauto.
    + match goal with Htr : trace _ = _ |- _ => apply (IH pre Htr) end.
Qed.

(** Wait number [k] of the loop follows failure number [k] and lasts
    what line 26 computes from that failure at that attempt. *)
Lemma forLoop_sleep_is_delayMs a le w k e d :
  failures (trace (loop a le w)) !! k = Some e ->
  sleeps (trace (loop a le w)) !! k = Some d ->
  d = delayMs e initialDelay (a + Z.of_nat k).
Proof.
  revert k. pattern a, w, (loop a le w).
  apply forLoop_cases; clear a le w; simpl.
  - intros a le w _ k Hf; simplify_eq/=.
  - intros a w v w1 _ _ k Hf; simplify_eq/=.
  - intros a w e' w1 _ _ _ k _ Hs; simplify_eq/=.
  - intros a w e' w1 r _ _ _ _ IH [| k] Hf Hs; simplify_eq/=.
    + f_equal. lia.
    + rewrite (IH k Hf Hs). f_equal. lia.
Qed.

(** A rate-limit failure with retries left is followed by its wait. *)
Lemma forLoop_sleeps a le w k e :
  failures (trace (loop a le w)) !! k = Some e ->
  isRateLimit e = true ->
  a + Z.of_nat k < maxRetries ->
  sleeps (trace (loop a le w)) !! k
    = Some (delayMs e initialDelay (a + Z.of_nat k)).
Proof.
  revert k. pattern a, w, (loop a le w).
  apply forLoop_cases; clear a le w; simpl.
  - intros a le w _ k Hf; simplify_eq/=.
  - intros a w v w1 _ _ k Hf; simplify_eq/=.
  - intros a w e' w1 _ _ Hwhy [| k] Hf Hrl Hlt; simplify_eq/=.
    destruct Hwhy; [congruence | lia].
  - intros a w e' w1 r _ _ _ _ IH [| k] Hf Hrl Hlt; simplify_eq/=.
    + do 2 f_equal. lia.
    + rewrite (IH k Hf Hrl) by lia. do 2 f_equal. lia.
Qed.

(** When every call the loop makes throws a rate-limit failure, so does
    the loop. *)
Lemma forLoop_all_limited a le w :
  a <= maxRetries ->
  Forall rateLimited (calls (trace (loop a le w))) ->
  exists e, result (loop a le w) = ExitThrow e /\ isRateLimit e = true.
Proof.
  pattern a, w, (loop a le w).
  apply forLoop_cases; clear a le w; simpl.
  - intros; lia.
  - intros a w v w1 _ _ _ Hall.
    apply Forall_cons in Hall as [(e & [=] & _) _].
  - intros a w e w1 _ _ _ _ Hall.
    apply Forall_cons in Hall as [(e' & [= <-] & Hrl) _]. eauto.
  - intros a w e w1 r Hlt _ _ _ IH _ Hall.
    apply Forall_cons in Hall as [_ Hall]. apply IH; [lia | exact Hall].
Qed.

(** *** From the loop to the function *)

Lemma withRateLimit_result w :
  0 <= maxRetries ->
  (exists v, result (loop 0 VUndefined w) = ExitReturn v
             /\ result (run w) = Returns v)
  \/ (exists e, result (loop 0 VUndefined w) = ExitThrow e
                /\ result (run w) = Throws e).
Proof.
  intros Hmax. unfold withRateLimit. simpl.
  destruct (result (loop 0 VUndefined w)) as [v | e | le'] eqn:Hres; eauto.
  apply forLoop_normal in Hres. lia.
Qed.

(** The last thing a run does is the call whose outcome it reports. *)
Lemma withRateLimit_last w :
  0 <= maxRetries ->
  last (trace (run w)) = Some (Call (result (run w))).
Proof.
  intros Hmax. pose proof (forLoop_last 0 VUndefined w) as Hlast.
  destruct (withRateLimit_result w Hmax) as [(v & Hres & ->) | (e & Hres & ->)];
    rewrite Hres in Hlast; exact Hlast.
Qed.

(** The loop does what its trace says, against [fn] and the timer. *)
Lemma forLoop_played a le w :
  played fn w (trace (loop a le w)) (world (loop a le w)).
Proof.
  pattern a, w, (loop a le w).
  apply forLoop_cases; clear a le w; simpl.
  - reflexivity.
  - intros a w v w1 _ Hfn. rewrite Hfn. split; reflexivity.
  - intros a w e w1 _ Hfn _. rewrite Hfn. split; reflexivity.
  - intros a w e w1 r _ Hfn _ _ IH. rewrite Hfn. split; [reflexivity | exact IH].
Qed.

Lemma withRateLimit_played w :
  played fn w (trace (run w)) (world (run w)).
Proof. apply forLoop_played. Qed.

(** Against an operation that only ever throws rate-limit failures,
    every call of a trace played threw one. *)
Lemma played_calls_limited tr w w' :
  (forall w0, rateLimited (fn w0).1) ->
  played fn w tr w' ->
  Forall rateLimited (calls tr).
Proof.
  intros Hall. revert w.
  induction tr as [| [o | d retry total | d] tr IH]; intros w; simpl.
  - constructor.
  - intros [<- Hrest]. constructor; [apply Hall | exact (IH _ Hrest)].
  - apply IH.
  - apply IH.
Qed.

(** *** The properties of [withRateLimit] *)

(** C1.  A caught failure is classified as a rate-limit failure exactly
    when it is an object whose [statusCode] is the number 429 or whose
    [error] is the string "Too Many Requests"; and every wait of a run
    comes right after a call that threw a failure so classified (and
    after the message announcing the wait). *)
Theorem rate_limit_classification :
  (forall error,
      isRateLimit error = true <->
      exists props,
        error = VObject props
        /\ (props !! "statusCode" = Some (VNumber (Int 429))
            \/ props !! "error" = Some (VString "Too Many Requests")))
  /\ (forall w pre d post,
         trace (withRateLimit fn maxRetries initialDelay w)
           = pre ++ Sleep d :: post ->
         exists pre' e retry,
           pre = pre' ++ [Call (Throws e); Log d retry maxRetries]
           /\ isRateLimit e = true).
Proof.
  split.
  - intros error. rewrite isRateLimit_spec.
    rewrite !optChain_own_property by discriminate. split.
    + intros [(props & -> & Hk) | (props & -> & Hk)]; eauto.
    + intros (props & -> & [Hk | Hk]); eauto.
  - intros w pre d post. rewrite withRateLimit_trace.
    apply forLoop_sleep_after_rate_limit.
Qed.

(** C2, as the code has it.  When attempt [i] fails with a rate-limit
    failure, the wait before the next attempt lasts
    max(s * 1000, initialDelay * 2^i) milliseconds, where [s] is the
    failure's [retryAfter] when it is present and not zero, and 1
    otherwise; and there is such a wait whenever [i < maxRetries].
    This holds while the two products are exact in doubles: neither
    exceeds 2^53 in absolute value, and [i] is at most 1023. *)
Theorem wait_before_next_attempt w i e r :
  failures (trace (withRateLimit fn maxRetries initialDelay w)) !! i = Some e ->
  isRateLimit e = true ->
  carriesRetryAfter e r ->
  exact53 (secondsOr1 r * 1000) ->
  Z.of_nat i <= 1023 ->
  exact53 (initialDelay * 2 ^ Z.of_nat i) ->
  (forall d,
      sleeps (trace (withRateLimit fn maxRetries initialDelay w)) !! i = Some d ->
      d = Int (Z.max (secondsOr1 r * 1000) (initialDelay * 2 ^ Z.of_nat i)))
  /\ (Z.of_nat i < maxRetries ->
      sleeps (trace (withRateLimit fn maxRetries initialDelay w)) !! i
        = Some (Int (Z.max (secondsOr1 r * 1000)
                           (initialDelay * 2 ^ Z.of_nat i)))).
Proof.
  intros Hf Hrl Hr Hsec Hi Hb. rewrite withRateLimit_trace in *.
  rewrite <- (delayMs_carries e r initialDelay (Z.of_nat i) Hr Hsec) by (auto; lia).
  split.
  - intros d Hs. apply (forLoop_sleep_is_delayMs 0 VUndefined w i e d Hf Hs).
  - intros Hlt. apply (forLoop_sleeps 0 VUndefined w i e Hf Hrl). lia.
Qed.

(** C3.  With [maxRetries >= 0] and an operation that throws a
    rate-limit failure whenever it is called, the run calls the
    operation exactly [maxRetries + 1] times, each call being played
    against the operation in the world reached, and then throws the
    failure of the last call, which is the last thing it does. *)
Theorem exhaustion_after_all_attempts w :
  0 <= maxRetries ->
  (forall w0, rateLimited (fn w0).1) ->
  played fn w (trace (withRateLimit fn maxRetries initialDelay w))
    (world (withRateLimit fn maxRetries initialDelay w))
  /\ Z.of_nat (length (calls (trace (withRateLimit fn maxRetries initialDelay w))))
     = maxRetries + 1
  /\ exists e,
       result (withRateLimit fn maxRetries initialDelay w) = Throws e
       /\ isRateLimit e = true
       /\ last (trace (withRateLimit fn maxRetries initialDelay w))
          = Some (Call (Throws e)).
Proof.
  intros Hmax Hop.
  pose proof (withRateLimit_played w) as Hplayed.
  split; [exact Hplayed |].
  pose proof (played_calls_limited _ _ _ Hop Hplayed) as Hall.
  rewrite withRateLimit_trace in Hall.
  destruct (forLoop_all_limited 0 VUndefined w Hmax Hall) as (e & Hres & Hrl).
  assert (Hrun : result (withRateLimit fn maxRetries initialDelay w) = Throws e).
  { unfold withRateLimit. simpl. rewrite Hres. reflexivity. }
  split.
  - rewrite withRateLimit_trace.
    destruct (forLoop_calls 0 VUndefined w) as [_ Heq]; [lia |].
    rewrite (Heq e Hres Hrl). lia.
  - exists e. repeat split; [exact Hrun | exact Hrl |].
    rewrite withRateLimit_last by assumption. rewrite Hrun. reflexivity.
Qed.

(** C4.  A call that throws a failure which is not a rate-limit failure
    is the last event of the run, whatever came before it and whatever
    budget is left, and the run throws that very failure; when the
    first call fails this way, the run is that one call. *)
Theorem other_failure_propagates_at_once :
  (forall w pre e post,
      trace (withRateLimit fn maxRetries initialDelay w)
        = pre ++ Call (Throws e) :: post ->
      isRateLimit e = false ->
      post = []
      /\ result (withRateLimit fn maxRetries initialDelay w) = Throws e)
  /\ (forall w e w1,
         0 <= maxRetries ->
         fn w = (Throws e, w1) ->
         isRateLimit e = false ->
         withRateLimit fn maxRetries initialDelay w
           = MkRun (Throws e) [Call (Throws e)] w1).
Proof.
  split.
  - intros w pre e post Htr Hno. rewrite withRateLimit_trace in Htr.
    destruct (forLoop_failure_fate _ _ _ _ _ _ Htr) as [[-> Hres] | [Hrl _]];
      [| congruence].
    split; [reflexivity |].
    unfold withRateLimit. simpl. rewrite Hres. reflexivity.
  - intros w e w1 Hmax Hfn Hno. unfold withRateLimit.
    rewrite (forLoop_throw 0 VUndefined w e w1) by auto. reflexivity.
Qed.

(** C5.  When the first call succeeds (and [maxRetries >= 0], as the
    contract of the function has it), the run is that single call: it
    returns the value and waits for nothing. *)
Theorem first_call_succeeds w v w1 :
  0 <= maxRetries ->
  fn w = (Returns v, w1) ->
  withRateLimit fn maxRetries initialDelay w
    = MkRun (Returns v) [Call (Returns v)] w1.
Proof.
  intros Hmax Hfn. unfold withRateLimit.
  rewrite (forLoop_return 0 VUndefined w v w1) by auto. reflexivity.
Qed.

(** C6, as the code has it.  On a failure whose [retryAfter] is the
    number [r], with [r * 1000] exact in doubles (at most 2^53 in
    absolute value), line 26 computes at least [r * 1000] milliseconds
    (an integer, or infinity) at every attempt from 0 to 1023 and, when
    [initialDelay] is not zero, at every attempt; and every such wait
    of a run after such a failure lasts at least that long. *)
Theorem retryAfter_is_a_floor :
  (forall e r attempt,
      carriesRetryAfter e (Some r) ->
      exact53 (r * 1000) ->
      0 <= attempt ->
      attempt <= 1023 \/ initialDelay <> 0 ->
      atLeast (r * 1000) (delayMs e initialDelay attempt))
  /\ (forall w i e r d,
         failures (trace (withRateLimit fn maxRetries initialDelay w)) !! i
           = Some e ->
         sleeps (trace (withRateLimit fn maxRetries initialDelay w)) !! i
           = Some d ->
         carriesRetryAfter e (Some r) ->
         exact53 (r * 1000) ->
         Z.of_nat i <= 1023 \/ initialDelay <> 0 ->
         atLeast (r * 1000) d).
Proof.
  assert (Hfloor : forall e r attempt,
             carriesRetryAfter e (Some r) ->
             exact53 (r * 1000) ->
             0 <= attempt ->
             attempt <= 1023 \/ initialDelay <> 0 ->
             atLeast (r * 1000) (delayMs e initialDelay attempt)).
  { intros e r attempt Hr Hexact _ Hwhy. unfold delayMs.
    assert (Hsec : exact53 (secondsOr1 (Some r) * 1000)).
    { simpl. destruct (Z.eqb_spec r 0); [| exact Hexact].
      unfold exact53. change (2 ^ 53) with 9007199254740992. lia. }
    rewrite (serverDelay_carries e (Some r) Hr Hsec).
    pose proof (Math_max_atLeast (secondsOr1 (Some r) * 1000) _
                  (backoff_cases initialDelay attempt Hwhy)) as Hmax.
    assert (Hle : r * 1000 <= secondsOr1 (Some r) * 1000).
    { simpl. destruct (Z.eqb_spec r 0); lia. }
    destruct (Math_max _ _) as [z | p |]; simpl in *; [lia | exact Hmax | exact Hmax]. }
  split; [exact Hfloor |].
  intros w i e r d Hf Hs Hr Hexact Hwhy. rewrite withRateLimit_trace in *.
  rewrite (forLoop_sleep_is_delayMs 0 VUndefined w i e d Hf Hs).
  apply Hfloor; first [assumption | lia].
Qed.

(** C8.  When a run with [maxRetries >= 0] throws, what it throws is the
    value most recently thrown by the operation, as it was thrown: the
    events of the run are played against the operation (each call in
    the trace is what [fn] answered in the world reached), the last
    event of the run is the call that threw the value, and it is the
    last of the failures the run observed. *)
Theorem thrown_failure_is_the_last_observed w e :
  0 <= maxRetries ->
  result (withRateLimit fn maxRetries initialDelay w) = Throws e ->
  played fn w (trace (withRateLimit fn maxRetries initialDelay w))
    (world (withRateLimit fn maxRetries initialDelay w))
  /\ last (trace (withRateLimit fn maxRetries initialDelay w))
     = Some (Call (Throws e))
  /\ last (failures (trace (withRateLimit fn maxRetries initialDelay w)))
     = Some e.
Proof.
  intros Hmax Hres.
  assert (Hlast : last (trace (withRateLimit fn maxRetries initialDelay w))
                  = Some (Call (Throws e))).
  { rewrite withRateLimit_last by assumption. rewrite Hres. reflexivity. }
  split; [apply withRateLimit_played |].
  split; [exact Hlast | apply failures_last, Hlast].
Qed.

(** C9.  With [maxRetries >= 0] the run (a total function: it always
    ends) makes at most [maxRetries + 1] calls, each of them played
    against the operation in the world reached, and ends in exactly one
    of three ways: the value of the last call returned, a failure that
    is not a rate-limit failure thrown, or a rate-limit failure thrown
    after [maxRetries + 1] calls.  No failure is dropped: each failure
    the operation throws is either thrown by the run, which ends
    there, or answered by a message, a wait and a further call. *)
Theorem run_ends_within_budget w :
  0 <= maxRetries ->
  played fn w (trace (withRateLimit fn maxRetries initialDelay w))
    (world (withRateLimit fn maxRetries initialDelay w))
  /\ Z.of_nat (length (calls (trace (withRateLimit fn maxRetries initialDelay w))))
    <= maxRetries + 1
  /\ exactlyOne (endsInSuccess (withRateLimit fn maxRetries initialDelay w))
                (endsInFatal (withRateLimit fn maxRetries initialDelay w))
                (endsInExhaustion maxRetries
                   (withRateLimit fn maxRetries initialDelay w))
  /\ (forall pre e post,
         trace (withRateLimit fn maxRetries initialDelay w)
           = pre ++ Call (Throws e) :: post ->
         (post = []
          /\ result (withRateLimit fn maxRetries initialDelay w) = Throws e)
         \/ (exists d retry o post',
                post = Log d retry maxRetries :: Sleep d :: Call o :: post')).
Proof.
  intros Hmax.
  destruct (forLoop_calls 0 VUndefined w) as [Hle Heq]; [lia |].
  pose proof (withRateLimit_last w Hmax) as Hlast.
  split; [apply withRateLimit_played |].
  split; [rewrite withRateLimit_trace; lia |]. split.
  - unfold exactlyOne, endsInSuccess, endsInFatal, endsInExhaustion.
    destruct (withRateLimit_result w Hmax)
      as [(v & Hres & Hrun) | (e & Hres & Hrun)].
    + left. rewrite Hrun in *. repeat split.
      * eauto.
      * intros (e & [=] & _).
      * intros (e & [=] & _).
    + right. rewrite Hrun in *. destruct (isRateLimit e) eqn:Hrl.
      * right. repeat split.
        -- intros (v & [=] & _).
        -- intros (e' & [= <-] & Hno & _). congruence.
        -- exists e. repeat split; auto.
           rewrite withRateLimit_trace. rewrite (Heq e Hres Hrl). lia.
      * left. repeat split.
        -- intros (v & [=] & _).
        -- eauto.
        -- intros (e' & [= <-] & Hyes & _). congruence.
  - intros pre e post Htr. rewrite withRateLimit_trace in Htr.
    destruct (forLoop_failure_fate _ _ _ _ _ _ Htr) as [[-> Hres] | [_ Hnext]];
      [left | right; exact Hnext].
    split; [reflexivity |].
    unfold withRateLimit. simpl. rewrite Hres. reflexivity.
Qed.

End Properties.

Section AnyBound.
Context {T : Type} `{Host}.
Variable fn : World -> Outcome T * World.
Variable maxRetries : Q.
Variable initialDelay : Z.


End AnyBound.

Lemma isRateLimit_429 error :
  optChain error "statusCode" = VNumber (Int 429) -> isRateLimit error = true.
Proof. intros H429. apply isRateLimit_spec. auto. Qed.

(** C7.  With [maxRetries = 5], an operation that fails with status 429
    at its first two calls and succeeds at the third: the run returns
    the value of the third call after exactly two waits, one after each
    failure. *)
Theorem two_rate_limits_then_success {T : Type} `{Host}
    (fn : World -> Outcome T * World) (initialDelay : Z)
    w e0 w1 e1 w2 v w3 :
  fn w = (Throws e0, w1) ->
  optChain e0 "statusCode" = VNumber (Int 429) ->
  fn (setTimeout (delayMs e0 initialDelay 0) w1) = (Throws e1, w2) ->
  optChain e1 "statusCode" = VNumber (Int 429) ->
  fn (setTimeout (delayMs e1 initialDelay 1) w2) = (Returns v, w3) ->
  withRateLimit fn 5 initialDelay w
    = MkRun (Returns v)
            [Call (Throws e0);
             Log (delayMs e0 initialDelay 0) 1 5; Sleep (delayMs e0 initialDelay 0);
             Call (Throws e1);
             Log (delayMs e1 initialDelay 1) 2 5; Sleep (delayMs e1 initialDelay 1);
             Call (Returns v)]
            w3
  /\ length (sleeps (trace (withRateLimit fn 5 initialDelay w))) = 2%nat.
Proof.
  intros Hfn0 H0 Hfn1 H1 Hfn2.
  assert (Hrun : withRateLimit fn 5 initialDelay w
                 = MkRun (Returns v)
                     [Call (Throws e0);
                      Log (delayMs e0 initialDelay 0) 1 5;
                      Sleep (delayMs e0 initialDelay 0);
                      Call (Throws e1);
                      Log (delayMs e1 initialDelay 1) 2 5;
                      Sleep (delayMs e1 initialDelay 1);
                      Call (Returns v)]
                     w3).
  { unfold withRateLimit.
    change (forLoop fn 5 initialDelay) with (forLoop fn (inject_Z 5) initialDelay).
    rewrite (forLoop_retry fn 5 initialDelay 0 VUndefined w e0 w1)
      by (auto using isRateLimit_429; lia).
    change (0 + 1) with 1.
    rewrite (forLoop_retry fn 5 initialDelay 1 e0 _ e1 w2)
      by (auto using isRateLimit_429; lia).
    change (1 + 1) with 2.
    rewrite (forLoop_return fn 5 initialDelay 2 e1 _ v w3) by (auto; lia).
    reflexivity. }
  split; [exact Hrun | rewrite Hrun; reflexivity].
Qed.

(** ** The properties at concrete runs *)

Lemma rate_limit_classification_witness :
  exists pre' e retry,
    [Call (Throws tooManyRequests : Outcome Z); Log (Int 1000) 1 5]
      = pre' ++ [Call (Throws e); Log (Int 1000) retry 5]
    /\ isRateLimit e = true.
Proof.
  apply (proj2 (rate_limit_classification (H := scriptHost)
                  (scripted [Throws tooManyRequests] (Returns 7)) 5 1000)
           0%nat _ (Int 1000) [Call (Returns 7)]).
  reflexivity.
Defined.

Lemma wait_before_next_attempt_witness :
  (forall d,
      sleeps (trace (withRateLimit (H := scriptHost)
                       (scripted [Throws retryAfterFive] (Returns 7))
                       defaultMaxRetries defaultInitialDelay 0%nat))
        !! 0%nat = Some d ->
      d = Int (Z.max (secondsOr1 (Some 5) * 1000)
                     (defaultInitialDelay * 2 ^ Z.of_nat 0)))
  /\ (Z.of_nat 0 < defaultMaxRetries ->
      sleeps (trace (withRateLimit (H := scriptHost)
                       (scripted [Throws retryAfterFive] (Returns 7))
                       defaultMaxRetries defaultInitialDelay 0%nat))
        !! 0%nat
      = Some (Int (Z.max (secondsOr1 (Some 5) * 1000)
                         (defaultInitialDelay * 2 ^ Z.of_nat 0)))).
Proof.
  apply (wait_before_next_attempt (H := scriptHost)
           (scripted [Throws retryAfterFive] (Returns 7))
           defaultMaxRetries defaultInitialDelay
           0%nat 0%nat retryAfterFive (Some 5)).
  - reflexivity.
  - reflexivity.
  - reflexivity.
  - unfold exact53. simpl. lia.
  - simpl. lia.
  - unfold exact53, defaultInitialDelay. simpl. lia.
Defined.

(** A failure whose [retryAfter] is 0, with [initialDelay = 100]: the
    first wait lasts 1000 ms, where the formula of the specification
    gives max(0 * 1000, 100 * 2^0) = 100 ms. *)
Lemma retryAfter_zero_waits_a_second :
  failures (trace (withRateLimit (H := scriptHost)
                     (scripted [Throws retryAfterZero] (Returns 7)) 5 100 0%nat))
    !! 0%nat = Some retryAfterZero
  /\ isRateLimit retryAfterZero = true
  /\ carriesRetryAfter retryAfterZero (Some 0)
  /\ sleeps (trace (withRateLimit (H := scriptHost)
                      (scripted [Throws retryAfterZero] (Returns 7)) 5 100 0%nat))
       !! 0%nat = Some (Int 1000)
  /\ specDelay (Some 0) 100 (Z.of_nat 0) = 100
  /\ sleeps (trace (withRateLimit (H := scriptHost)
                      (scripted [Throws retryAfterZero] (Returns 7)) 5 100 0%nat))
       !! 0%nat <> Some (Int (specDelay (Some 0) 100 (Z.of_nat 0))).
Proof.
  repeat split; try reflexivity. vm_compute. discriminate.
Qed.

Lemma exhaustion_after_all_attempts_witness :
  played (H := scriptHost) (scripted [] (Throws tooManyRequests : Outcome Z)) 0%nat
    (trace (withRateLimit (H := scriptHost)
              (scripted [] (Throws tooManyRequests : Outcome Z)) 2 1000 0%nat))
    (world (withRateLimit (H := scriptHost)
              (scripted [] (Throws tooManyRequests : Outcome Z)) 2 1000 0%nat))
  /\ Z.of_nat (length (calls (trace (withRateLimit (H := scriptHost)
              (scripted [] (Throws tooManyRequests : Outcome Z)) 2 1000 0%nat))))
    = 2 + 1
  /\ exists e,
       result (withRateLimit (H := scriptHost)
                 (scripted [] (Throws tooManyRequests : Outcome Z)) 2 1000 0%nat)
         = Throws e
       /\ isRateLimit e = true
       /\ last (trace (withRateLimit (H := scriptHost)
                   (scripted [] (Throws tooManyRequests : Outcome Z)) 2 1000 0%nat))
           = Some (Call (Throws e)).
Proof.
  apply (exhaustion_after_all_attempts (H := scriptHost)
           (scripted [] (Throws tooManyRequests : Outcome Z)) 2 1000 0%nat).
  - lia.
  - intros w0. exists tooManyRequests. split; reflexivity.
Defined.

Lemma other_failure_propagates_at_once_witness :
  withRateLimit (H := scriptHost)
    (scripted [] (Throws badRequest : Outcome Z)) 5 1000 0%nat
  = MkRun (Throws badRequest) [Call (Throws badRequest)] 1%nat.
Proof.
  apply (proj2 (other_failure_propagates_at_once (H := scriptHost)
                  (scripted [] (Throws badRequest : Outcome Z)) 5 1000)).
  - lia.
  - reflexivity.
  - reflexivity.
Defined.

Lemma first_call_succeeds_witness :
  withRateLimit (H := scriptHost) (scripted [] (Returns 7)) 5 1000 0%nat
  = MkRun (Returns 7) [Call (Returns 7)] 1%nat.
Proof.
  apply (first_call_succeeds (H := scriptHost) (scripted [] (Returns 7)) 5 1000).
  - lia.
  - reflexivity.
Defined.

Lemma retryAfter_is_a_floor_witness :
  sleeps (trace (withRateLimit (H := scriptHost)
                   (scripted [Throws retryAfterFive] (Returns 7)) 5 1000 0%nat))
    !! 0%nat = Some (Int 5000)
  /\ atLeast (5 * 1000) (Int 5000).
Proof.
  split; [reflexivity |].
  apply (proj2 (retryAfter_is_a_floor (H := scriptHost)
                  (scripted [Throws retryAfterFive] (Returns 7)) 5 1000)
           0%nat 0%nat retryAfterFive 5 (Int 5000)).
  - reflexivity.
  - reflexivity.
  - reflexivity.
  - unfold exact53. simpl. lia.
  - left. simpl. lia.
Defined.

(** A failure whose [retryAfter] is 9007199254740991 (2^53 - 1), with
    the default [initialDelay]: the product [retryAfter * 1000] is
    rounded to the nearest double, and the first wait lasts
    9007199254740990976 ms, 24 ms less than the server asked for. *)
Lemma retryAfter_huge_is_rounded_down :
  failures (trace (withRateLimit (H := scriptHost)
                     (scripted [Throws retryAfterHuge] (Returns 7)) 5 1000 0%nat))
    !! 0%nat = Some retryAfterHuge
  /\ isRateLimit retryAfterHuge = true
  /\ carriesRetryAfter retryAfterHuge (Some 9007199254740991)
  /\ sleeps (trace (withRateLimit (H := scriptHost)
                      (scripted [Throws retryAfterHuge] (Returns 7)) 5 1000 0%nat))
       !! 0%nat = Some (Int 9007199254740990976)
  /\ ~ atLeast (9007199254740991 * 1000) (Int 9007199254740990976).
Proof.
  repeat split; try reflexivity. simpl. lia.
Qed.

Lemma two_rate_limits_then_success_witness :
  withRateLimit (H := scriptHost)
    (scripted [Throws tooManyRequests; Throws tooManyRequests] (Returns 7))
    5 1000 0%nat
  = MkRun (Returns 7)
      [Call (Throws tooManyRequests); Log (Int 1000) 1 5; Sleep (Int 1000);
       Call (Throws tooManyRequests); Log (Int 2000) 2 5; Sleep (Int 2000);
       Call (Returns 7)]
      3%nat
  /\ length (sleeps (trace (withRateLimit (H := scriptHost)
        (scripted [Throws tooManyRequests; Throws tooManyRequests] (Returns 7))
        5 1000 0%nat))) = 2%nat.
Proof.
  apply (two_rate_limits_then_success (H := scriptHost)
           (scripted [Throws tooManyRequests; Throws tooManyRequests] (Returns 7))
           1000 0%nat tooManyRequests 1%nat tooManyRequests 2%nat 7 3%nat);
    reflexivity.
Defined.

Lemma thrown_failure_is_the_last_observed_witness :
  played (H := scriptHost)
    (scripted [Throws tooManyRequests] (Throws badRequest : Outcome Z)) 0%nat
    (trace (withRateLimit (H := scriptHost)
          (scripted [Throws tooManyRequests] (Throws badRequest : Outcome Z))
          5 1000 0%nat))
    (world (withRateLimit (H := scriptHost)
          (scripted [Throws tooManyRequests] (Throws badRequest : Outcome Z))
          5 1000 0%nat))
  /\ last (trace (withRateLimit (H := scriptHost)
          (scripted [Throws tooManyRequests] (Throws badRequest : Outcome Z))
          5 1000 0%nat))
    = Some (Call (Throws badRequest))
  /\ last (failures (trace (withRateLimit (H := scriptHost)
          (scripted [Throws tooManyRequests] (Throws badRequest : Outcome Z))
          5 1000 0%nat)))
    = Some badRequest.
Proof.
  apply (thrown_failure_is_the_last_observed (H := scriptHost)
           (scripted [Throws tooManyRequests] (Throws badRequest : Outcome Z))
           5 1000 0%nat badRequest).
  - lia.
  - reflexivity.
Defined.

Lemma run_ends_within_budget_witness :
  played (H := scriptHost)
    (scripted [Throws tooManyRequests] (Throws badRequest : Outcome Z)) 0%nat
    (trace (withRateLimit (H := scriptHost)
          (scripted [Throws tooManyRequests] (Throws badRequest : Outcome Z))
          5 1000 0%nat))
    (world (withRateLimit (H := scriptHost)
          (scripted [Throws tooManyRequests] (Throws badRequest : Outcome Z))
          5 1000 0%nat))
  /\ Z.of_nat (length (calls (trace (withRateLimit (H := scriptHost)
      (scripted [Throws tooManyRequests] (Throws badRequest : Outcome Z))
      5 1000 0%nat)))) <= 5 + 1
  /\ exactlyOne
       (endsInSuccess (withRateLimit (H := scriptHost)
          (scripted [Throws tooManyRequests] (Throws badRequest : Outcome Z))
          5 1000 0%nat))
       (endsInFatal (withRateLimit (H := scriptHost)
          (scripted [Throws tooManyRequests] (Throws badRequest : Outcome Z))
          5 1000 0%nat))
       (endsInExhaustion 5 (withRateLimit (H := scriptHost)
          (scripted [Throws tooManyRequests] (Throws badRequest : Outcome Z))
          5 1000 0%nat))
  /\ (forall pre e post,
         trace (withRateLimit (H := scriptHost)
           (scripted [Throws tooManyRequests] (Throws badRequest : Outcome Z))
           5 1000 0%nat) = pre ++ Call (Throws e) :: post ->
         (post = []
          /\ result (withRateLimit (H := scriptHost)
               (scripted [Throws tooManyRequests] (Throws badRequest : Outcome Z))
               5 1000 0%nat) = Throws e)
         \/ (exists d retry o post',
                post = Log d retry 5 :: Sleep d :: Call o :: post')).
Proof.
  apply (run_ends_within_budget (H := scriptHost)
           (scripted [Throws tooManyRequests] (Throws badRequest : Outcome Z))
           5 1000 0%nat).
  lia.
Defined.



(** ** Further properties of the loop *)

Section Anatomy.
Context {T : Type} `{Host}.
Variable fn : World -> Outcome T * World.
Variable maxRetries : Z.
Variable initialDelay : Z.

Local Abbreviation loop := (forLoop fn maxRetries initialDelay).

(** What a loop started at attempt [a] does, read off its trace: the
    failures [es] it retried, one after the other, and the call that
    ended it. *)
Lemma forLoop_anatomy a le w :
  a <= maxRetries ->
  exists es,
    Forall (fun e => isRateLimit e = true) es
    /\ a + Z.of_nat (length es) <= maxRetries
    /\ sleeps (trace (loop a le w))
       = imap (fun i e => delayMs e initialDelay (a + Z.of_nat i)) es
    /\ logs (trace (loop a le w))
       = imap (fun i e => (delayMs e initialDelay (a + Z.of_nat i),
                           a + Z.of_nat i + 1, inject_Z maxRetries)) es
    /\ match result (loop a le w) with
       | ExitReturn v =>
           calls (trace (loop a le w)) = (Throws <$> es) ++ [Returns v]
           /\ failures (trace (loop a le w)) = es
       | ExitThrow e =>
           calls (trace (loop a le w)) = (Throws <$> es) ++ [Throws e]
           /\ failures (trace (loop a le w)) = es ++ [e]
       | ExitNormal _ => False
       end.
Proof.
  pattern a, w, (loop a le w).
  apply forLoop_cases; clear a le w.
  - intros; lia.
  - intros a w v w1 Hle _ _. exists []. simpl.
    repeat split; first [apply Forall_nil_2 | reflexivity | lia].
  - intros a w e w1 Hle _ _ _. exists []. simpl.
    repeat split; first [apply Forall_nil_2 | reflexivity | lia].
  - intros a w e w1 r Hlt _ Hrl _ IH _.
    destruct IH as (es & Hall & Hlen & Hsl & Hlg & Hres); [lia |].
    exists (e :: es).
    cbn [emit trace result app sleeps logs calls failures imap length].
    rewrite Hsl, Hlg. change (Z.of_nat 0) with 0. rewrite Z.add_0_r.
    assert (Hshift : forall i, a + Z.of_nat (S i) = a + 1 + Z.of_nat i) by lia.
    repeat split.
    + constructor; assumption.
    + lia.
    + f_equal. apply imap_ext. intros i e' _. unfold compose.
      rewrite Hshift. reflexivity.
    + f_equal. apply imap_ext. intros i e' _. unfold compose.
      rewrite Hshift. reflexivity.
    + destruct (result r); [| | exact Hres];
        destruct Hres as [-> ->]; split; reflexivity.
Qed.

Local Abbreviation run := (withRateLimit fn maxRetries initialDelay).

Lemma withRateLimit_anatomy w :
  0 <= maxRetries ->
  exists es,
    Forall (fun e => isRateLimit e = true) es
    /\ Z.of_nat (length es) <= maxRetries
    /\ sleeps (trace (run w))
       = imap (fun i e => delayMs e initialDelay (Z.of_nat i)) es
    /\ logs (trace (run w))
       = imap (fun i e => (delayMs e initialDelay (Z.of_nat i),
                           Z.of_nat i + 1, inject_Z maxRetries)) es
    /\ calls (trace (run w)) = (Throws <$> es) ++ [result (run w)]
    /\ failures (trace (run w))
       = es ++ match result (run w) with
               | Throws e => [e]
               | Returns _ => []
               end.
Proof.
  intros Hmax.
  destruct (forLoop_anatomy 0 VUndefined w Hmax)
    as (es & Hall & Hlen & Hsl & Hlg & Hres).
  exists es. unfold withRateLimit.
  cbn [trace result]. rewrite Hsl, Hlg. repeat split.
  - exact Hall.
  - lia.
  - destruct (result (loop 0 VUndefined w)); [| | contradiction];
      apply Hres.
  - destruct (result (loop 0 VUndefined w)); [| | contradiction];
      destruct Hres as [_ ->]; [rewrite app_nil_r |]; reflexivity.
Qed.

(** The waits of a schedule of pure doubling add up to a geometric sum. *)
Lemma waited_doubling {A} (c a : Z) (es : list A) :
  0 <= a ->
  waited (imap (fun i _ => Int (c * 2 ^ (a + Z.of_nat i))) es)
  = Some (c * 2 ^ a * (2 ^ Z.of_nat (length es) - 1)).
Proof.
  revert a. induction es as [| e es IH]; intros a Ha.
  - simpl. f_equal. lia.
  - cbn [imap waited length]. change (Z.of_nat 0) with 0. rewrite Z.add_0_r.
    rewrite (imap_ext _ (fun i _ => Int (c * 2 ^ (a + 1 + Z.of_nat i)))).
    + rewrite IH by lia. cbn [fmap option_fmap option_map]. f_equal.
      rewrite Nat2Z.inj_succ, !Z.pow_succ_r, Z.pow_add_r by lia. lia.
    + intros i x _. unfold compose. do 3 f_equal. lia.
Qed.

(** Without a [retryAfter] and with [initialDelay >= 1000], line 26 is
    the exponential term alone, while that term is exact in doubles. *)
Lemma delayMs_plain error attempt :
  1000 <= initialDelay ->
  0 <= attempt <= 1023 ->
  exact53 (initialDelay * 2 ^ attempt) ->
  carriesRetryAfter error None ->
  delayMs error initialDelay attempt = Int (initialDelay * 2 ^ attempt).
Proof.
  intros Hd Ha Hexact Hr.
  rewrite (delayMs_carries error None initialDelay attempt Hr);
    [| unfold exact53; simpl; lia | exact Ha | exact Hexact].
  f_equal. simpl secondsOr1.
  assert (1 <= 2 ^ attempt) by (apply Z.pow_le_mono_r with (b := 0); lia).
  nia.
Qed.

Lemma isRateLimit_not_object e :
  (forall props, e <> VObject props) -> isRateLimit e = false.
Proof.
  intros Hno. destruct e; try reflexivity. now destruct (Hno props).
Qed.


(** X2.  Progress message number [k] (from 0) announces retry [k + 1] of
    [maxRetries], never more than [maxRetries], and the delay it shows
    is the delay of wait number [k]. *)
Theorem progress_messages_count_the_retries w k d retry (total : Q) :
  logs (trace (withRateLimit fn maxRetries initialDelay w)) !! k
    = Some (d, retry, total) ->
  retry = Z.of_nat k + 1
  /\ total = maxRetries
  /\ retry <= maxRetries
  /\ sleeps (trace (withRateLimit fn maxRetries initialDelay w)) !! k = Some d.
Proof.
  destruct (Z_lt_le_dec maxRetries 0) as [Hneg | Hmax].
  - rewrite withRateLimit_trace, forLoop_done by lia. discriminate.
  - destruct (withRateLimit_anatomy w Hmax)
      as (es & _ & Hlen & Hsl & Hlg & _).
    rewrite Hlg, Hsl, !list_lookup_imap.
    destruct (es !! k) as [e |] eqn:Hk; [| discriminate].
    intros [= <- <- <-].
    apply lookup_lt_Some in Hk. repeat split; lia.
Qed.

(** X3.  On a failure whose [retryAfter] is absent, zero or a positive
    integer [r] with [r * 1000] exact in doubles, line 26 computes at
    least 1000 ms (an integer, or infinity) at every attempt from 0 to
    1023 for every [initialDelay], zero and negative ones included,
    and at every attempt when [initialDelay] is not zero; and every
    such wait a run makes after such a failure lasts at least a
    second. *)
Theorem wait_at_least_a_second :
  (forall e r attempt,
      carriesRetryAfter e r ->
      (forall z, r = Some z -> 0 <= z) ->
      exact53 (secondsOr1 r * 1000) ->
      0 <= attempt ->
      attempt <= 1023 \/ initialDelay <> 0 ->
      atLeast 1000 (delayMs e initialDelay attempt))
  /\ (forall w i e r d,
         failures (trace (withRateLimit fn maxRetries initialDelay w)) !! i
           = Some e ->
         sleeps (trace (withRateLimit fn maxRetries initialDelay w)) !! i
           = Some d ->
         carriesRetryAfter e r ->
         (forall z, r = Some z -> 0 <= z) ->
         exact53 (secondsOr1 r * 1000) ->
         Z.of_nat i <= 1023 \/ initialDelay <> 0 ->
         atLeast 1000 d).
Proof.
  assert (Hsec : forall e r attempt,
             carriesRetryAfter e r ->
             (forall z, r = Some z -> 0 <= z) ->
             exact53 (secondsOr1 r * 1000) ->
             0 <= attempt ->
             attempt <= 1023 \/ initialDelay <> 0 ->
             atLeast 1000 (delayMs e initialDelay attempt)).
  { intros e r attempt Hr Hpos Hexact _ Hwhy. unfold delayMs.
    rewrite (serverDelay_carries e r Hr Hexact).
    pose proof (Math_max_atLeast (secondsOr1 r * 1000) _
                  (backoff_cases initialDelay attempt Hwhy)) as Hmax.
    assert (1 <= secondsOr1 r).
    { destruct r as [z |]; simpl; [| lia].
      specialize (Hpos z eq_refl). destruct (Z.eqb_spec z 0); lia. }
    destruct (Math_max _ _) as [z | p |]; simpl in *;
      [lia | exact Hmax | exact Hmax]. }
  split; [exact Hsec |].
  intros w i e r d Hf Hs Hr Hpos Hexact Hwhy. rewrite withRateLimit_trace in *.
  rewrite (forLoop_sleep_is_delayMs fn maxRetries initialDelay
             0 VUndefined w i e d Hf Hs).
  apply (Hsec e r); first [assumption | lia].
Qed.

(** X4.  With [initialDelay >= 0] the delay computed for one and the same
    failure never shrinks from one attempt to a later one, while the
    products of line 26 are exact in doubles: the later attempt is at
    most 1023, and neither [retryAfter * 1000] nor the later
    exponential term exceeds 2^53. *)
Theorem backoff_never_shrinks e r i j :
  0 <= initialDelay ->
  0 <= i <= j ->
  j <= 1023 ->
  carriesRetryAfter e r ->
  exact53 (secondsOr1 r * 1000) ->
  exact53 (initialDelay * 2 ^ j) ->
  exists di dj,
    delayMs e initialDelay i = Int di
    /\ delayMs e initialDelay j = Int dj
    /\ di <= dj.
Proof.
  intros Hd Hij Hj Hr Hsec Hexact.
  assert (Hpow : 0 < 2 ^ i <= 2 ^ j).
  { split; [apply Z.pow_pos_nonneg; lia | apply Z.pow_le_mono_r; lia]. }
  assert (Hexact' : exact53 (initialDelay * 2 ^ i)).
  { unfold exact53 in *. rewrite Z.abs_eq in * by nia. nia. }
  rewrite (delayMs_carries e r initialDelay i Hr Hsec) by (auto; lia).
  rewrite (delayMs_carries e r initialDelay j Hr Hsec) by (auto; lia).
  do 2 eexists. repeat split. nia.
Qed.

(** When no failure of a run carries a [retryAfter],
    [initialDelay >= 1000], [maxRetries <= 1023] and the largest
    exponential term [initialDelay * 2^maxRetries] is exact in doubles,
    wait number [i] lasts [initialDelay * 2^i] ms and the [n] waits of
    the run add up to [initialDelay * (2^n - 1)] ms, which is at most
    [initialDelay * (2^maxRetries - 1)]. *)
Lemma withRateLimit_doubling w :
  1000 <= initialDelay ->
  0 <= maxRetries <= 1023 ->
  exact53 (initialDelay * 2 ^ maxRetries) ->
  Forall (fun e => carriesRetryAfter e None)
    (failures (trace (withRateLimit fn maxRetries initialDelay w))) ->
  (forall i d,
      sleeps (trace (withRateLimit fn maxRetries initialDelay w)) !! i = Some d ->
      d = Int (initialDelay * 2 ^ Z.of_nat i))
  /\ waited (sleeps (trace (withRateLimit fn maxRetries initialDelay w)))
     = Some (initialDelay
             * (2 ^ Z.of_nat (length (sleeps
                   (trace (withRateLimit fn maxRetries initialDelay w)))) - 1))
  /\ initialDelay
       * (2 ^ Z.of_nat (length (sleeps
             (trace (withRateLimit fn maxRetries initialDelay w)))) - 1)
     <= initialDelay * (2 ^ maxRetries - 1).
Proof.
  intros Hd Hmax Hexact Hplain.
  destruct (withRateLimit_anatomy w (proj1 Hmax))
    as (es & _ & Hlen & Hsl & _ & _ & Hfail).
  rewrite Hfail in Hplain. apply Forall_app in Hplain as [Hplain _].
  assert (Hdoubling :
            imap (fun i e => delayMs e initialDelay (Z.of_nat i)) es
            = imap (fun i _ => Int (initialDelay * 2 ^ (0 + Z.of_nat i))) es).
  { apply imap_ext. intros i e Hi. rewrite Z.add_0_l.
    pose proof (lookup_lt_Some _ _ _ Hi) as Hlt.
    assert (Hpow : 0 < 2 ^ Z.of_nat i <= 2 ^ maxRetries).
    { split; [apply Z.pow_pos_nonneg; lia | apply Z.pow_le_mono_r; lia]. }
    apply delayMs_plain; [assumption | lia | |].
    - unfold exact53 in *. rewrite Z.abs_eq in * by nia. nia.
    - rewrite Forall_forall in Hplain. apply Hplain.
      apply list_elem_of_lookup. eauto. }
  rewrite Hsl, Hdoubling, length_imap. repeat split.
  - intros i d. rewrite list_lookup_imap.
    destruct (es !! i); [| discriminate]. intros [= <-].
    rewrite Z.add_0_l. reflexivity.
  - rewrite waited_doubling by lia. f_equal. lia.
  - assert (2 ^ Z.of_nat (length es) <= 2 ^ maxRetries)
      by (apply Z.pow_le_mono_r; lia).
    nia.
Qed.

(** X5.  When no failure of a run carries a [retryAfter],
    [initialDelay >= 1000], [maxRetries <= 1023] and the largest
    exponential term [initialDelay * 2^maxRetries] is exact in doubles
    (at most 2^53), wait number [i] lasts [initialDelay * 2^i] ms and
    the [n] waits of the run add up to [initialDelay * (2^n - 1)] ms,
    which is at most [initialDelay * (2^maxRetries - 1)]. *)
Theorem exponential_schedule w :
  1000 <= initialDelay ->
  0 <= maxRetries <= 1023 ->
  exact53 (initialDelay * 2 ^ maxRetries) ->
  Forall (fun e => carriesRetryAfter e None)
    (failures (trace (withRateLimit fn maxRetries initialDelay w))) ->
  (forall i d,
      sleeps (trace (withRateLimit fn maxRetries initialDelay w)) !! i = Some d ->
      d = Int (initialDelay * 2 ^ Z.of_nat i))
  /\ waited (sleeps (trace (withRateLimit fn maxRetries initialDelay w)))
     = Some (initialDelay
             * (2 ^ Z.of_nat (length (sleeps
                   (trace (withRateLimit fn maxRetries initialDelay w)))) - 1))
  /\ initialDelay
       * (2 ^ Z.of_nat (length (sleeps
             (trace (withRateLimit fn maxRetries initialDelay w)))) - 1)
     <= initialDelay * (2 ^ maxRetries - 1).
Proof. apply withRateLimit_doubling. Qed.

(** X6.  A [retryAfter] that is truthy and that the host converts to
    NaN (a string that is no numeral, an object whose primitive value
    is no number) makes the delay of line 26 NaN, whatever
    [initialDelay] and the attempt: the exponential term is lost with
    it.  So after a rate-limit failure with such a [retryAfter], the
    run announces and asks the timer for NaN milliseconds. *)
Theorem unreadable_retryAfter_gives_NaN :
  (forall e v attempt,
      optChain e "retryAfter" = v ->
      truthy v = true ->
      ToNumber v = NaN ->
      delayMs e initialDelay attempt = NaN)
  /\ (forall w e w1,
         0 < maxRetries ->
         fn w = (Throws e, w1) ->
         isRateLimit e = true ->
         truthy (optChain e "retryAfter") = true ->
         ToNumber (optChain e "retryAfter") = NaN ->
         exists rest,
           trace (withRateLimit fn maxRetries initialDelay w)
           = Call (Throws e) :: Log NaN 1 maxRetries :: Sleep NaN :: rest).
Proof.
  assert (Hnan : forall e v attempt,
             optChain e "retryAfter" = v ->
             truthy v = true ->
             ToNumber v = NaN ->
             delayMs e initialDelay attempt = NaN).
  { intros e v attempt Hv Htruthy Hnum.
    unfold delayMs, retryAfter, logicalOr.
    rewrite Hv, Htruthy, Hnum. reflexivity. }
  split; [exact Hnan |].
  intros w e w1 Hlt Hfn Hrl Htruthy Hnum.
  rewrite withRateLimit_trace.
  rewrite (forLoop_retry fn maxRetries initialDelay 0 VUndefined w e w1)
    by assumption.
  rewrite (Hnan e _ 0 eq_refl Htruthy Hnum).
  eexists. reflexivity.
Qed.

(** X7.  A thrown value that is not an object ([undefined], [null], a
    boolean, a number, a string, the string "Too Many Requests"
    included) is never retried: with [maxRetries >= 0] the run is the
    one call and throws the value. *)
Theorem thrown_primitive_is_not_retried w e w1 :
  0 <= maxRetries ->
  (forall props, e <> VObject props) ->
  fn w = (Throws e, w1) ->
  withRateLimit fn maxRetries initialDelay w
    = MkRun (Throws e) [Call (Throws e)] w1.
Proof.
  intros Hmax Hprim Hfn. unfold withRateLimit.
  rewrite (forLoop_throw fn maxRetries initialDelay 0 VUndefined w e w1)
    by auto using isRateLimit_not_object.
  reflexivity.
Qed.

End Anatomy.


(** X8.  A call with both defaults, [withRateLimit(fn)], as every call
    site of the examples has it: at most 6 calls of the operation and 5
    waits; and when no failure carries a [retryAfter], the waits add up
    to at most 31000 ms. *)
Theorem default_call_budget {T : Type} `{Host}
    (fn : World -> Outcome T * World) w :
  (length (calls (trace
     (withRateLimit fn defaultMaxRetries defaultInitialDelay w))) <= 6)%nat
  /\ (length (sleeps (trace
        (withRateLimit fn defaultMaxRetries defaultInitialDelay w))) <= 5)%nat
  /\ (Forall (fun e => carriesRetryAfter e None)
        (failures (trace
           (withRateLimit fn defaultMaxRetries defaultInitialDelay w))) ->
      exists total,
        waited (sleeps (trace
          (withRateLimit fn defaultMaxRetries defaultInitialDelay w)))
          = Some total
        /\ total <= 31000).
Proof.
  assert (Hmax : 0 <= defaultMaxRetries) by (unfold defaultMaxRetries; lia).
  assert (Hd : 1000 <= defaultInitialDelay) by (unfold defaultInitialDelay; lia).
  destruct (withRateLimit_anatomy fn defaultMaxRetries defaultInitialDelay w Hmax)
    as (es & _ & Hlen & Hsl & _ & Hcalls & _).
  unfold defaultMaxRetries in Hlen. repeat split.
  - rewrite Hcalls, length_app, length_fmap. simpl. lia.
  - rewrite Hsl, length_imap. lia.
  - intros Hplain.
    assert (Hexact : exact53 (defaultInitialDelay * 2 ^ defaultMaxRetries)).
    { unfold exact53. vm_compute. discriminate. }
    assert (Hmax' : 0 <= defaultMaxRetries <= 1023)
      by (unfold defaultMaxRetries; lia).
    destruct (withRateLimit_doubling fn defaultMaxRetries defaultInitialDelay
                w Hd Hmax' Hexact Hplain) as (_ & Hsum & Hbound).
    eexists. split; [exact Hsum |].
    etransitivity; [exact Hbound |]. vm_compute. discriminate.
Qed.


Lemma progress_messages_count_the_retries_witness :
  2 = Z.of_nat 1 + 1
  /\ inject_Z 5 = inject_Z 5
  /\ 2 <= 5
  /\ sleeps (trace (withRateLimit (H := scriptHost)
                      (scripted [] (Throws tooManyRequests : Outcome Z))
                      5 1000 0%nat)) !! 1%nat
     = Some (Int 2000).
Proof.
  apply (progress_messages_count_the_retries (H := scriptHost)
           (scripted [] (Throws tooManyRequests : Outcome Z)) 5 1000
           0%nat 1%nat (Int 2000) 2 5).
  reflexivity.
Defined.

Lemma wait_at_least_a_second_witness :
  sleeps (trace (withRateLimit (H := scriptHost)
                   (scripted [Throws retryAfterZero] (Returns 7)) 5 0 0%nat))
    !! 0%nat = Some (Int 1000)
  /\ atLeast 1000 (Int 1000).
Proof.
  split; [reflexivity |].
  apply (proj2 (wait_at_least_a_second (H := scriptHost)
                  (scripted [Throws retryAfterZero] (Returns 7)) 5 0)
           0%nat 0%nat retryAfterZero (Some 0) (Int 1000)).
  - reflexivity.
  - reflexivity.
  - reflexivity.
  - intros z [= <-]. lia.
  - unfold exact53. simpl. lia.
  - left. simpl. lia.
Defined.

Lemma backoff_never_shrinks_witness :
  exists di dj,
    delayMs (H := scriptHost) retryAfterFive 1000 2 = Int di
    /\ delayMs (H := scriptHost) retryAfterFive 1000 3 = Int dj
    /\ di <= dj.
Proof.
  apply (backoff_never_shrinks (H := scriptHost) 1000 retryAfterFive (Some 5) 2 3).
  - lia.
  - lia.
  - lia.
  - reflexivity.
  - unfold exact53. simpl. lia.
  - unfold exact53. simpl. lia.
Defined.

Lemma exponential_schedule_witness :
  (forall i d,
      sleeps (trace (withRateLimit (H := scriptHost)
                       (scripted [] (Throws tooManyRequests : Outcome Z))
                       5 1000 0%nat)) !! i = Some d ->
      d = Int (1000 * 2 ^ Z.of_nat i))
  /\ waited (sleeps (trace (withRateLimit (H := scriptHost)
                               (scripted [] (Throws tooManyRequests : Outcome Z))
                               5 1000 0%nat)))
     = Some (1000 * (2 ^ Z.of_nat (length (sleeps (trace
                (withRateLimit (H := scriptHost)
                   (scripted [] (Throws tooManyRequests : Outcome Z))
                   5 1000 0%nat)))) - 1))
  /\ 1000 * (2 ^ Z.of_nat (length (sleeps (trace
                (withRateLimit (H := scriptHost)
                   (scripted [] (Throws tooManyRequests : Outcome Z))
                   5 1000 0%nat)))) - 1)
     <= 1000 * (2 ^ 5 - 1).
Proof.
  apply (exponential_schedule (H := scriptHost)
           (scripted [] (Throws tooManyRequests : Outcome Z)) 5 1000 0%nat).
  - lia.
  - lia.
  - unfold exact53. simpl. lia.
  - change (Forall (fun e => carriesRetryAfter e None)
              [tooManyRequests; tooManyRequests; tooManyRequests;
               tooManyRequests; tooManyRequests; tooManyRequests]).
    repeat constructor.
Defined.

Lemma unreadable_retryAfter_gives_NaN_witness :
  exists rest,
    trace (withRateLimit (H := scriptHost)
             (scripted [Throws retryAfterObject] (Returns 7)) 5 1000 0%nat)
    = Call (Throws retryAfterObject) :: Log NaN 1 5 :: Sleep NaN :: rest.
Proof.
  apply (proj2 (unreadable_retryAfter_gives_NaN (H := scriptHost)
                  (scripted [Throws retryAfterObject] (Returns 7)) 5 1000)
           0%nat retryAfterObject 1%nat).
  - lia.
  - reflexivity.
  - reflexivity.
  - reflexivity.
  - reflexivity.
Defined.

Lemma thrown_primitive_is_not_retried_witness :
  withRateLimit (H := scriptHost)
    (scripted [] (Throws (VString "Too Many Requests") : Outcome Z))
    5 1000 0%nat
  = MkRun (Throws (VString "Too Many Requests"))
      [Call (Throws (VString "Too Many Requests"))] 1%nat.
Proof.
  apply (thrown_primitive_is_not_retried (H := scriptHost)
           (scripted [] (Throws (VString "Too Many Requests") : Outcome Z))
           5 1000 0%nat (VString "Too Many Requests") 1%nat).
  - lia.
  - intros props. discriminate.
  - reflexivity.
Defined.

Lemma default_call_budget_witness :
  exists total,
    waited (sleeps (trace
      (withRateLimit (H := scriptHost)
         (scripted [] (Throws tooManyRequests : Outcome Z))
         defaultMaxRetries defaultInitialDelay 0%nat)))
      = Some total
    /\ total <= 31000.
Proof.
  apply (proj2 (proj2 (default_call_budget (H := scriptHost)
                         (scripted [] (Throws tooManyRequests : Outcome Z))
                         0%nat))).
  change (Forall (fun e => carriesRetryAfter e None)
            [tooManyRequests; tooManyRequests; tooManyRequests;
             tooManyRequests; tooManyRequests; tooManyRequests]).
  repeat constructor.
Defined.

End RateLimiter.

(** ** The fee the sponsor offers *)

Module FeeBumpFacts.
Import Js FeeBump.

(** X9.  For an inner fee that is not negative, a positive base fee and
    at least one operation, the fee of the fee-bump transaction is an
    integer above the inner fee, at least the inner fee plus one base
    fee per operation and at least ten times the inner fee; it is
    exactly ten times the inner fee when, and only when, the base fees
    of the operations come to at most nine times the inner fee. *)
Theorem dynamicFee_exceeds_inner_fee innerTxFee baseFee operationCount :
  0 <= innerTxFee ->
  0 < baseFee ->
  0 < operationCount ->
  exists fee,
    dynamicFee innerTxFee baseFee operationCount = Int fee
    /\ innerTxFee < fee
    /\ minFeeBumpFee innerTxFee baseFee operationCount <= fee
    /\ innerTxFee * 10 <= fee
    /\ (fee = innerTxFee * 10 <-> baseFee * operationCount <= 9 * innerTxFee).
Proof.
  intros Hfee Hbase Hops.
  unfold dynamicFee, minFeeBumpFee, networkMultiplier. simpl Math_max.
  eexists. split; [reflexivity |].
  assert (0 < baseFee * operationCount) by nia.
  repeat split; lia.
Qed.

Lemma dynamicFee_exceeds_inner_fee_witness :
  exists fee,
    dynamicFee 100 100 1 = Int fee
    /\ 100 < fee
    /\ minFeeBumpFee 100 100 1 <= fee
    /\ 100 * 10 <= fee
    /\ (fee = 100 * 10 <-> 100 * 1 <= 9 * 100).
Proof.
  apply (dynamicFee_exceeds_inner_fee 100 100 1); lia.
Defined.

End FeeBumpFacts.

(** ** The polling loop of the .NET example *)

Module PollingFacts.
Import Polling.

Section Facts.
Context `{Server}.
Variable hash : string.

Lemma pending_spec (r : GetTransactionResponse Value) :
  pending r = true <->
  String.eqb (Status r) "FAILED" = false
  /\ String.eqb (Status r) "ERROR" = false
  /\ String.eqb (Status r) "SUCCESS" = false.
Proof.
  unfold pending.
  destruct (String.eqb (Status r) "FAILED"),
    (String.eqb (Status r) "ERROR"),
    (String.eqb (Status r) "SUCCESS"); simpl; intuition congruence.
Qed.

(** Once the loop has ended within some number of iterations, allowing
    it more changes nothing. *)
Lemma checkTransaction_more_fuel fuel fuel' w r :
  checkTransaction hash fuel w = Some r ->
  (fuel <= fuel')%nat ->
  checkTransaction hash fuel' w = Some r.
Proof.
  revert fuel' w r. induction fuel as [| fuel IH]; intros fuel' w r;
    [discriminate |].
  intros Hrun Hle. destruct fuel' as [| fuel']; [lia |].
  simpl in *. destruct (GetTransaction hash w) as [[checkedTx | e] w1];
    [| exact Hrun].
  destruct (String.eqb (Status checkedTx) "FAILED"
            || String.eqb (Status checkedTx) "ERROR"); [exact Hrun |].
  destruct (String.eqb (Status checkedTx) "SUCCESS"); [exact Hrun |].
  destruct (checkTransaction hash fuel (TaskDelay 50 w1))
    as [[[ending steps] w2] |] eqn:Hrest; [| discriminate].
  rewrite (IH fuel' _ _ Hrest) by lia. exact Hrun.
Qed.

(** After [k] pending answers the loop goes on as if started afresh
    in the world reached. *)
Lemma checkTransaction_after_pending k n w steps w' :
  pendingPolls hash k w = Some (steps, w') ->
  checkTransaction hash (k + n) w
  = match checkTransaction hash n w' with
    | Some (ending, more, w2) => Some (ending, steps ++ more, w2)
    | None => None
    end.
Proof.
  revert w steps. induction k as [| k IH]; intros w steps.
  - intros [= <- <-]. simpl.
    destruct (checkTransaction hash n _) as [[[ending more] w2] |]; reflexivity.
  - simpl. destruct (GetTransaction hash w) as [[checkedTx | e] w1];
      [| discriminate].
    destruct (pending checkedTx) eqn:Hpending; [| discriminate].
    apply pending_spec in Hpending as (-> & -> & ->). simpl.
    destruct (pendingPolls hash k (TaskDelay 50 w1)) as [[steps' w2] |] eqn:Hk;
      [| discriminate].
    intros [= <- <-]. rewrite (IH _ _ Hk).
    destruct (checkTransaction hash n _) as [[[ending more] w3] |];
      reflexivity.
Qed.

Lemma pendingPolls_delays k w steps w' :
  pendingPolls hash k w = Some (steps, w') ->
  delays steps = replicate k 50.
Proof.
  revert w steps. induction k as [| k IH]; intros w steps.
  - intros [= <- <-]. reflexivity.
  - simpl. destruct (GetTransaction hash w) as [[checkedTx | e] w1];
      [| discriminate].
    destruct (pending checkedTx); [| discriminate].
    destruct (pendingPolls hash k (TaskDelay 50 w1)) as [[steps' w2] |] eqn:Hk;
      [| discriminate].
    intros [= <- <-]. simpl. f_equal. exact (IH _ _ Hk).
Qed.

(** The loop after [k] pending answers, when the next one settles it
    within one iteration. *)
Lemma checkTransaction_settles k w steps w' fuel ending more w2 :
  pendingPolls hash k w = Some (steps, w') ->
  checkTransaction hash 1 w' = Some (ending, more, w2) ->
  (k < fuel)%nat ->
  checkTransaction hash fuel w = Some (ending, steps ++ more, w2).
Proof.
  intros Hk Hone Hlt.
  apply checkTransaction_more_fuel with (fuel := (k + 1)%nat); [| lia].
  rewrite (checkTransaction_after_pending k 1 w steps w' Hk), Hone.
  reflexivity.
Qed.

(** X10.  When the server answers [k] times with a pending status and
    then with SUCCESS and a result, the loop, given more than [k]
    iterations, ends by [break] with that response, after [k] delays of
    50 ms each and the two lines about the transaction. *)
Theorem success_after_pending_polls k w steps w' r w'' v fuel :
  pendingPolls hash k w = Some (steps, w') ->
  GetTransaction hash w' = (inl r, w'') ->
  Status r = "SUCCESS" ->
  ResultValue r = Some v ->
  (k < fuel)%nat ->
  checkTransaction hash fuel w
  = Some (Broke r,
          steps ++ [Asked (inl r);
                    WriteLine (String.append newline
                                 (String.append "Transaction Status: "
                                                "SUCCESS"));
                    WriteLine (String.append "Transaction hash: " hash)],
          w'')
  /\ delays steps = replicate k 50.
Proof.
  intros Hk Hget Hstatus Hvalue Hlt. split.
  - apply (checkTransaction_settles k w steps w'); [exact Hk | | exact Hlt].
    simpl. rewrite Hget, Hstatus, Hvalue. reflexivity.
  - exact (pendingPolls_delays k w steps w' Hk).
Qed.

(** X11.  After [k] pending answers, the answer that follows makes the
    loop throw: "Transaction failed." on the status FAILED or ERROR,
    "Transaction result value is null." on SUCCESS without a result,
    and the server's own exception when the call throws. *)
Theorem failure_after_pending_polls k w steps w' fuel :
  pendingPolls hash k w = Some (steps, w') ->
  (k < fuel)%nat ->
  (forall r w'',
      GetTransaction hash w' = (inl r, w'') ->
      Status r = "FAILED" \/ Status r = "ERROR" ->
      exists more,
        checkTransaction hash fuel w
        = Some (Threw (Exception "Transaction failed."),
                steps ++ Asked (inl r) :: more, w''))
  /\ (forall r w'',
         GetTransaction hash w' = (inl r, w'') ->
         Status r = "SUCCESS" ->
         ResultValue r = None ->
         exists more,
           checkTransaction hash fuel w
           = Some (Threw (Exception "Transaction result value is null."),
                   steps ++ Asked (inl r) :: more, w''))
  /\ (forall e w'',
         GetTransaction hash w' = (inr e, w'') ->
         checkTransaction hash fuel w
         = Some (Threw (ServerFault e), steps ++ [Asked (inr e)], w'')).
Proof.
  intros Hk Hlt. repeat split.
  - intros r w'' Hget Hstatus.
    destruct Hstatus as [Hstatus | Hstatus]; eexists;
      (apply (checkTransaction_settles k w steps w');
       [exact Hk | | exact Hlt]);
      simpl; rewrite Hget, Hstatus; reflexivity.
  - intros r w'' Hget Hstatus Hvalue. eexists.
    apply (checkTransaction_settles k w steps w'); [exact Hk | | exact Hlt].
    simpl. rewrite Hget, Hstatus, Hvalue. reflexivity.
  - intros e w'' Hget.
    apply (checkTransaction_settles k w steps w'); [exact Hk | | exact Hlt].
    simpl. rewrite Hget. reflexivity.
Qed.

(** X12.  The loop has no limit of its own: after [k] pending answers it
    is still polling, whatever [k]; a transaction that stays pending
    keeps it polling for ever. *)
Theorem polling_never_gives_up w :
  (forall k steps w',
      pendingPolls hash k w = Some (steps, w') ->
      checkTransaction hash k w = None)
  /\ ((forall k, is_Some (pendingPolls hash k w)) ->
      forall fuel, checkTransaction hash fuel w = None).
Proof.
  assert (Hstill : forall k steps w',
             pendingPolls hash k w = Some (steps, w') ->
             checkTransaction hash k w = None).
  { intros k steps w' Hk.
    pose proof (checkTransaction_after_pending k 0 w steps w' Hk) as Hrun.
    rewrite Nat.add_0_r in Hrun. exact Hrun. }
  split; [exact Hstill |].
  intros Hall fuel. destruct (Hall fuel) as [[steps w'] Hk].
  exact (Hstill fuel steps w' Hk).
Qed.

(** X13.  The loop leaves by [break] only with a response whose status
    is SUCCESS and whose result is not null, and by then it has made
    fewer delays than iterations, each of 50 ms. *)
Theorem break_only_on_success fuel w r steps w' :
  checkTransaction hash fuel w = Some (Broke r, steps, w') ->
  Status r = "SUCCESS"
  /\ is_Some (ResultValue r)
  /\ exists k, (k < fuel)%nat /\ delays steps = replicate k 50.
Proof.
  revert w steps. induction fuel as [| fuel IH]; intros w steps;
    [discriminate |].
  simpl. destruct (GetTransaction hash w) as [[checkedTx | e] w1];
    [| discriminate].
  destruct (String.eqb (Status checkedTx) "FAILED"
            || String.eqb (Status checkedTx) "ERROR"); [discriminate |].
  destruct (String.eqb_spec (Status checkedTx) "SUCCESS") as [Hs | Hs].
  - destruct (ResultValue checkedTx) as [v |] eqn:Hv; [| discriminate].
    intros [= <- <- <-]. repeat split; [exact Hs | rewrite Hv; eauto |].
    exists 0%nat. split; [lia | reflexivity].
  - destruct (checkTransaction hash fuel (TaskDelay 50 w1))
      as [[[ending more] w2] |] eqn:Hrest; [| discriminate].
    intros [= -> <- <-].
    destruct (IH _ _ Hrest) as (Hstatus & Hvalue & k & Hlt & Hdelays).
    repeat split; [exact Hstatus | exact Hvalue |].
    exists (S k). split; [lia |]. simpl. rewrite Hdelays. reflexivity.
Qed.

End Facts.

Section FoundOnThirdCall.
#[local] Existing Instance foundOnThirdCall.

Lemma success_after_pending_polls_witness :
  checkTransaction (H := foundOnThirdCall) "tx" 5 0%nat
  = Some (Broke (MkResponse "SUCCESS" (Some 7)),
          [Asked (inl (MkResponse "NOT_FOUND" None)); Write "."; Delayed 50;
           Asked (inl (MkResponse "NOT_FOUND" None)); Write "."; Delayed 50]
            ++ [Asked (inl (MkResponse "SUCCESS" (Some 7)));
                WriteLine (String.append newline
                             (String.append "Transaction Status: " "SUCCESS"));
                WriteLine (String.append "Transaction hash: " "tx")],
          3%nat)
  /\ delays (H := foundOnThirdCall)
       [Asked (inl (MkResponse "NOT_FOUND" None)); Write "."; Delayed 50;
        Asked (inl (MkResponse "NOT_FOUND" None)); Write "."; Delayed 50]
     = replicate 2 50.
Proof.
  apply (success_after_pending_polls (H := foundOnThirdCall)
           "tx" 2 0%nat _ 2%nat (MkResponse "SUCCESS" (Some 7)) 3%nat 7 5).
  - reflexivity.
  - reflexivity.
  - reflexivity.
  - reflexivity.
  - lia.
Defined.

Lemma break_only_on_success_witness :
  Status (MkResponse "SUCCESS" (Some 7)) = "SUCCESS"
  /\ is_Some (ResultValue (MkResponse "SUCCESS" (Some 7)))
  /\ exists k,
       (k < 5)%nat
       /\ delays (H := foundOnThirdCall)
            [Asked (inl (MkResponse "NOT_FOUND" None)); Write "."; Delayed 50;
             Asked (inl (MkResponse "NOT_FOUND" None)); Write "."; Delayed 50;
             Asked (inl (MkResponse "SUCCESS" (Some 7)));
             WriteLine (String.append newline
                          (String.append "Transaction Status: " "SUCCESS"));
             WriteLine (String.append "Transaction hash: " "tx")]
          = replicate k 50.
Proof.
  apply (break_only_on_success (H := foundOnThirdCall) "tx" 5 0%nat
           (MkResponse "SUCCESS" (Some 7)) _ 3%nat).
  reflexivity.
Defined.

End FoundOnThirdCall.

Section FailsOnSecondCall.
#[local] Existing Instance failsOnSecondCall.

Lemma failure_after_pending_polls_witness :
  exists more,
    checkTransaction (H := failsOnSecondCall) "tx" 5 0%nat
    = Some (Threw (Exception "Transaction failed."),
            [Asked (inl (MkResponse "NOT_FOUND" None)); Write "."; Delayed 50]
              ++ Asked (inl (MkResponse "FAILED" None)) :: more,
            2%nat).
Proof.
  apply (proj1 (failure_after_pending_polls (H := failsOnSecondCall)
           "tx" 1 0%nat _ 1%nat 5 eq_refl ltac:(lia))
           (MkResponse "FAILED" None) 2%nat).
  - reflexivity.
  - left. reflexivity.
Defined.

End FailsOnSecondCall.

Section NeverFound.
#[local] Existing Instance neverFound.

Lemma polling_never_gives_up_witness :
  checkTransaction (H := neverFound) "tx" 4 0%nat = None.
Proof.
  apply (proj1 (polling_never_gives_up (H := neverFound) "tx" 0%nat)
           4%nat
           [Asked (inl (MkResponse "NOT_FOUND" None)); Write "."; Delayed 50;
            Asked (inl (MkResponse "NOT_FOUND" None)); Write "."; Delayed 50;
            Asked (inl (MkResponse "NOT_FOUND" None)); Write "."; Delayed 50;
            Asked (inl (MkResponse "NOT_FOUND" None)); Write "."; Delayed 50]
           4%nat).
  reflexivity.
Defined.

End NeverFound.

End PollingFacts.

(** ** The first lines of a stack trace *)

Module StackTraceFacts.
Import StackTrace.

Lemma split_not_nil sep s : split sep s <> [].
Proof.
  destruct s as [| c s]; simpl; [discriminate |].
  destruct (Ascii.eqb c sep); [discriminate |].
  destruct (split sep s); discriminate.
Qed.

Lemma join_cons sep piece pieces :
  pieces <> [] ->
  join sep (piece :: pieces)
  = String.append piece (String.append sep (join sep pieces)).
Proof. destruct pieces; [congruence | reflexivity]. Qed.

(** Joining what was split gives the string back. *)
Lemma join_split sep s :
  join (String sep EmptyString) (split sep s) = s.
Proof.
  induction s as [| c s IH]; [reflexivity |].
  simpl split. destruct (Ascii.eqb_spec c sep) as [-> | Hne].
  - rewrite join_cons by apply split_not_nil. rewrite IH. reflexivity.
  - pose proof (split_not_nil sep s) as Hnil.
    destruct (split sep s) as [| piece pieces]; [congruence |].
    destruct pieces as [| piece' pieces]; rewrite <- IH; reflexivity.
Qed.

Lemma append_assoc (a b c : string) :
  String.append (String.append a b) c = String.append a (String.append b c).
Proof.
  induction a as [| x a IH]; [reflexivity |].
  change (String x (String.append (String.append a b) c)
          = String x (String.append a (String.append b c))).
  now rewrite IH.
Qed.

Lemma append_empty_r (a : string) : String.append a EmptyString = a.
Proof.
  induction a as [| x a IH]; [reflexivity |].
  change (String x (String.append a EmptyString) = String x a).
  now rewrite IH.
Qed.

(** The first pieces joined are the start of all of them joined. *)
Lemma join_take_prefix sep n pieces :
  exists rest,
    join sep pieces = String.append (join sep (take n pieces)) rest.
Proof.
  revert n. induction pieces as [| piece pieces IH]; intros n.
  - exists EmptyString. destruct n; reflexivity.
  - destruct n as [| n].
    + exists (join sep (piece :: pieces)). reflexivity.
    + destruct pieces as [| piece' pieces].
      * exists EmptyString. destruct n; simpl; now rewrite append_empty_r.
      * destruct (IH n) as [rest Hrest].
        rewrite join_cons by discriminate. rewrite Hrest.
        destruct n as [| n].
        -- exists (String.append sep
                     (String.append (join sep (take 0 (piece' :: pieces))) rest)).
           reflexivity.
        -- exists rest.
           change (take (S (S n)) (piece :: piece' :: pieces))
             with (piece :: take (S n) (piece' :: pieces)).
           rewrite join_cons by (simpl; discriminate).
           rewrite !append_assoc. reflexivity.
Qed.

Lemma split_free sep piece :
  occurs sep piece = false -> split sep piece = [piece].
Proof.
  induction piece as [| c piece IH]; [reflexivity |].
  simpl. intros [Hc Hfree]%orb_false_elim.
  rewrite Hc, (IH Hfree). reflexivity.
Qed.

Lemma split_append_free sep piece rest :
  occurs sep piece = false ->
  split sep (String.append piece (String sep rest)) = piece :: split sep rest.
Proof.
  induction piece as [| c piece IH].
  - intros _. change (split sep (String sep rest) = "" :: split sep rest).
    simpl. rewrite Ascii.eqb_refl. reflexivity.
  - simpl occurs. intros [Hc Hfree]%orb_false_elim.
    change (split sep (String c (String.append piece (String sep rest)))
            = String c piece :: split sep rest).
    simpl. rewrite Hc, (IH Hfree). reflexivity.
Qed.

Lemma split_pieces_free sep s :
  Forall (fun piece => occurs sep piece = false) (split sep s).
Proof.
  induction s as [| c s IH]; simpl.
  - repeat constructor.
  - destruct (Ascii.eqb c sep) eqn:Hc; [constructor; [reflexivity | exact IH] |].
    destruct (split sep s) as [| piece pieces]; [repeat constructor; simpl |].
    + rewrite Hc. reflexivity.
    + apply Forall_cons in IH as [Hpiece Hpieces].
      constructor; [| exact Hpieces]. simpl. rewrite Hc, Hpiece. reflexivity.
Qed.

(** Splitting what was joined from pieces free of the separator gives
    the pieces back. *)
Lemma split_join sep pieces :
  pieces <> [] ->
  Forall (fun piece => occurs sep piece = false) pieces ->
  split sep (join (String sep EmptyString) pieces) = pieces.
Proof.
  induction pieces as [| piece pieces IH]; [congruence |].
  intros _ [Hpiece Hpieces]%Forall_cons.
  destruct pieces as [| piece' pieces]; [exact (split_free sep piece Hpiece) |].
  rewrite join_cons by discriminate.
  change (String.append (String sep EmptyString)
            (join (String sep EmptyString) (piece' :: pieces)))
    with (String sep (join (String sep EmptyString) (piece' :: pieces))).
  rewrite (split_append_free sep piece _ Hpiece), IH; [reflexivity | | exact Hpieces].
  discriminate.
Qed.

(** X14.  The stack trace shown on an error is the start of the whole
    stack: its lines are the first five lines of the stack, and it is
    the whole stack when that has at most five lines. *)
Theorem stackHead_is_the_start_of_the_stack stack :
  (exists rest, stack = String.append (stackHead stack) rest)
  /\ split lineFeed (stackHead stack) = take 5 (split lineFeed stack)
  /\ ((length (split lineFeed stack) <= 5)%nat -> stackHead stack = stack).
Proof.
  unfold stackHead. repeat split.
  - destruct (join_take_prefix (String lineFeed EmptyString) 5
                (split lineFeed stack)) as [rest Hrest].
    exists rest. rewrite <- Hrest, join_split. reflexivity.
  - apply split_join.
    + pose proof (split_not_nil lineFeed stack) as Hnil.
      destruct (split lineFeed stack); [congruence | discriminate].
    + apply Forall_take, split_pieces_free.
  - intros Hshort. rewrite take_ge by exact Hshort. apply join_split.
Qed.

Lemma stackHead_is_the_start_of_the_stack_witness :
  stackHead "Error: Auth" = "Error: Auth".
Proof.
  apply (proj2 (proj2 (stackHead_is_the_start_of_the_stack "Error: Auth"))).
  simpl. lia.
Defined.

End StackTraceFacts.
